(** * 485sensor-viz: acquisition loop and windowed playback

    A shallow embedding of the two scripts of the repository:

    - [Playback] follows [viz.py]: loading the log, the subplot layout
      with its four-channel cut, the frame-to-index mapping and the
      trailing window of [animate];
    - [Live] follows [modviz5.py]: [read_sensor_data], [write_to_csv],
      [SensorReader.run] / [SensorReader.stop] and the main block.

    Conventions.  A [datetime64[ns]] value is the integer number of
    nanoseconds since the epoch, a [timedelta64] the integer number of
    nanoseconds; both are mathematical integers here (the 64-bit range is
    not modelled).  Python exceptions are values of [exn], a computation
    that may raise is a [pyresult].  Everything the scripts obtain from
    outside (the parsed CSV, the serial line, the clock, the moment the
    window is closed, I/O faults) is an explicit argument. *)

From Stdlib Require Import ZArith QArith Lia.
From Stdlib Require Import Floats.PrimFloat Numbers.Cyclic.Int63.Uint63.
From stdpp Require Import base option list gmap strings.

Set Warnings "-inexact-float".

(** ** Python exceptions *)

Inductive exn :=
| FileNotFoundError
| PermissionError
| OSError
| SerialException
| NoResponseError
| InvalidResponseError
| IndexError
| KeyError
| ValueError
| ZeroDivisionError
| EmptyDataError.

Inductive pyresult (A : Type) :=
| Ok (a : A)
| Raise (e : exn).
Arguments Ok {A} a.
Arguments Raise {A} e.

Definition bind {A B} (m : pyresult A) (k : A -> pyresult B) : pyresult B :=
  match m with
  | Ok a => k a
  | Raise e => Raise e
  end.

(** [try: body except Exception: handler]; every member of [exn] is a
    subclass of [Exception]. *)
Definition try_except {A} (body : pyresult A) (handler : exn -> pyresult A)
  : pyresult A :=
  match body with
  | Ok a => Ok a
  | Raise e => handler e
  end.

(** [l[i]] on a Python list: a negative index counts from the end, an
    index out of range raises [IndexError]. *)
Definition py_index {A} (l : list A) (i : Z) : pyresult A :=
  let n := Z.of_nat (length l) in
  let j := (if i <? 0 then i + n else i)%Z in
  if (j <? 0)%Z then Raise IndexError
  else match l !! Z.to_nat j with
       | Some x => Ok x
       | None => Raise IndexError
       end.

Definition is_empty {A} (l : list A) : bool :=
  match l with [] => true | _ :: _ => false end.

(** [a[mask]] with a boolean mask of the same length. *)
Fixpoint boolean_index {A} (a : list A) (mask : list bool) : list A :=
  match a, mask with
  | x :: a', b :: mask' =>
      if b then x :: boolean_index a' mask' else boolean_index a' mask'
  | _, _ => []
  end.

(** * viz.py *)
Module Playback.

Local Open Scope Z_scope.

(** ** Configuration *)

Definition data_window_s : Z := 3.
Definition TIMESTAMP_COL_NAME : string := "Timestamp".
Definition target_fps : Z := 30.
(** [int(1000 / target_fps)] *)
Definition animation_interval_ms : Z := 1000 ÷ target_fps.

Definition ns_per_ms : Z := 1000000.
Definition ns_per_s : Z := 1000000000.

(** ** Load Data *)

(** [s] ends with [suf]. *)
Definition ends_with (suf s : string) : bool :=
  let n := String.length s in
  let m := String.length suf in
  (m <=? n)%nat && String.eqb (String.substring (n - m) m s) suf.

(** [re.search(r'\(mm\)$', col)]: [$] matches at the end of the string and
    also just before a newline that ends the string. *)
Definition is_sensor_col (col : string) : bool :=
  ends_with "(mm)" col
  || ends_with (String.append "(mm)" (String (Ascii.ascii_of_nat 10) EmptyString)) col.

Inductive message :=
| WarnNaT
| ErrNoValidTime
| ErrLoading (e : exn)
| ErrNoSensorData.

Section Loader.

(** One field of the parsed CSV, and [pd.to_datetime] on it with the
    fixed format and [errors='coerce']: [None] is [NaT]. *)
Variable cell : Type.
Variable to_datetime : cell -> option Z.

(** What [pd.read_csv] hands over: the column names (pandas keeps them
    distinct) and the records. *)
Record DataFrame := {
  columns : list string;
  records : list (list cell)
}.

(** Position of a column name, [None] when [df[name]] raises [KeyError]. *)
Fixpoint column_position (name : string) (cols : list string) : option nat :=
  match cols with
  | [] => None
  | c :: cols' =>
      if String.eqb c name then Some 0%nat
      else S <$> column_position name cols'
  end.

(** The frame after line 21: every record next to its converted
    timestamp. *)
Definition stamped := (option Z * list cell)%type.

Definition convert_timestamps (k : nat) (rs : list (list cell)) : list stamped :=
  map (fun r => (r !! k ≫= to_datetime, r)) rs.

Definition isnull (r : stamped) : bool :=
  match r.1 with None => true | Some _ => false end.

(** [df.dropna(subset=[TIMESTAMP_COL_NAME])] *)
Definition dropna (df : list stamped) : list stamped :=
  List.filter (fun r => negb (isnull r)) df.

(** Positions of the columns kept by the list comprehension of line 30,
    in file order. *)
Fixpoint sensor_positions (i : nat) (cols : list string) : list nat :=
  match cols with
  | [] => []
  | c :: cols' =>
      if is_sensor_col c then i :: sensor_positions (S i) cols'
      else sensor_positions (S i) cols'
  end.

(** One row of [df[sensor_cols].values]. *)
Definition select (pos : list nat) (r : list cell) : list cell :=
  omap (fun i => r !! i) pos.

Record series := {
  sensor_cols : list string;
  ride_height_data : list (list cell);
  time_data : list Z
}.

Inductive load_outcome :=
| Loaded (printed : list message) (s : series)
| Exited (printed : list message).

(** Lines 19-37.  [exit()] raises [SystemExit], which [except Exception]
    does not catch: both exits end the process. *)
Definition load (csv : pyresult DataFrame) : load_outcome :=
  match csv with
  | Raise e => Exited [ErrLoading e]
  | Ok df =>
      match column_position TIMESTAMP_COL_NAME (columns df) with
      | None => Exited [ErrLoading KeyError]
      | Some k =>
          let df1 := convert_timestamps k (records df) in
          let any_null := existsb isnull df1 in
          let df2 := if any_null then dropna df1 else df1 in
          let printed := if any_null then [WarnNaT] else [] in
          if any_null && is_empty df2 then Exited (printed ++ [ErrNoValidTime])
          else
            let cols := List.filter is_sensor_col (columns df) in
            if is_empty cols then Exited (printed ++ [ErrLoading ValueError])
            else
              let pos := sensor_positions 0 (columns df) in
              Loaded printed
                {| sensor_cols := cols;
                   ride_height_data := map (fun r => select pos r.2) df2;
                   time_data := omap fst df2 |}
      end
  end.

(** ** Subplot layout (lines 39-59) *)

Record figure := {
  fig_series : series;
  num_sensors : nat;
  (** rows and columns of [plt.subplots] *)
  subplot_grid : nat * nat
}.

Inductive setup_outcome :=
| Ready (fig : figure)
| SetupExited (printed : list message).

Definition layout (s : series) : setup_outcome :=
  let n := length (sensor_cols s) in
  if (n =? 0)%nat then SetupExited [ErrNoSensorData]
  else if (n <? 4)%nat then
    Ready {| fig_series := s; num_sensors := n; subplot_grid := (1, n)%nat |}
  else if (4 <? n)%nat then
    Ready {| fig_series :=
               {| sensor_cols := take 4 (sensor_cols s);
                  ride_height_data := map (take 4) (ride_height_data s);
                  time_data := time_data s |};
             num_sensors := 4;
             subplot_grid := (2, 2)%nat |}
  else
    Ready {| fig_series := s; num_sensors := n; subplot_grid := (2, 2)%nat |}.

(** One [Line2D] per [i in range(num_sensors)] (lines 62-67). *)
Definition lines (fig : figure) : list nat := seq 0 (num_sensors fig).

End Loader.

Arguments columns {cell}.
Arguments records {cell}.
Arguments sensor_cols {cell}.
Arguments ride_height_data {cell}.
Arguments time_data {cell}.
Arguments fig_series {cell}.
Arguments num_sensors {cell}.
Arguments subplot_grid {cell}.
Arguments Loaded {cell}.
Arguments Exited {cell}.
Arguments Ready {cell}.
Arguments SetupExited {cell}.

(** ** Frame mapping (lines 88-108) *)

(** [np.searchsorted(a, key, side='right')] for one key, as numpy computes
    it: a binary search between [min_idx] and [max_idx] that compares the
    key with the middle element only, whether or not [a] is sorted.
    [fuel] bounds the number of halvings; the length of [a] is enough. *)
Fixpoint binsearch_right (fuel : nat) (a : list Z) (key : Z)
    (min_idx max_idx : nat) : nat :=
  match fuel with
  | O => min_idx
  | S fuel' =>
      if (min_idx <? max_idx)%nat then
        let mid_idx := (min_idx + (max_idx - min_idx) / 2)%nat in
        if key <? a !!! mid_idx
        then binsearch_right fuel' a key min_idx mid_idx
        else binsearch_right fuel' a key (S mid_idx) max_idx
      else min_idx
  end.

Definition searchsorted_right (a : list Z) (key : Z) : nat :=
  binsearch_right (length a) a key 0 (length a).

(** [np.clip(x, lo, hi)] *)
Definition clip (x lo hi : Z) : Z := Z.min (Z.max x lo) hi.

Section Frames.

Variable time_data : list Z.

(** Lines 90-93.  The script holds the quotient as a float; only its
    comparison with zero is used, and a non-zero number of nanoseconds
    divided by 1e9 is a non-zero float. *)
Definition total_duration_s : Q :=
  if (1 <? length time_data)%nat
  then Qdiv (inject_Z (default 0 (last time_data) - default 0 (head time_data)))
            (inject_Z ns_per_s)
  else 0%Q.

(** [int(frame * 1000 / target_fps)]: the float quotient of two integers,
    truncated towards zero ([÷]); for [|frame * 1000| < 2^53] the float
    quotient truncates to the same integer as the exact one. *)
Definition frame_offset_ms (frame : Z) : Z := (frame * 1000) ÷ target_fps.

Definition get_frame_time_idx (frame : Z) : Z :=
  if Qeq_bool total_duration_s 0 || (length time_data =? 1)%nat then 0
  else
    let t0 := default 0 (head time_data) in
    let target_time := t0 + frame_offset_ms frame * ns_per_ms in
    let idx := Z.of_nat (searchsorted_right time_data target_time) - 1 in
    clip idx 0 (Z.of_nat (length time_data) - 1).

(** ** The trailing window of [animate] (lines 110-122) *)

(** Line 113-114 for an end time and a window length in seconds. *)
Definition window_mask (end_time window_s : Z) : list bool :=
  let start_time_window := end_time - window_s * ns_per_s in
  map (fun t => (start_time_window <=? t) && (t <=? end_time)) time_data.

(** Lines 112-115 at a data index: the end time, the mask and the
    selected timestamps; [time_data[idx]] raises on a bad index. *)
Definition window (idx window_s : Z) : pyresult (Z * list bool * list Z) :=
  bind (py_index time_data idx) (fun end_time =>
    let mask := window_mask end_time window_s in
    Ok (end_time, mask, boolean_index time_data mask)).

End Frames.

Section Animate.

Variable cell : Type.

(** What one line and its axes are set to by a frame. *)
Record line_state := {
  xdata : list Z;
  ydata : list cell;
  xlim : Z * Z
}.

(** [ride_height_data[mask, i]]; the matrix is rectangular, so the
    lookup of column [i] succeeds in every row. *)
Definition masked_column (data : list (list cell)) (mask : list bool) (i : nat)
  : list cell :=
  omap (fun r => r !! i) (boolean_index data mask).

Definition animate (fig : figure cell) (frame : Z) : pyresult (list line_state) :=
  let T := time_data (fig_series fig) in
  let idx := get_frame_time_idx T frame in
  bind (window T idx data_window_s) (fun '(end_time, mask, t) =>
    Ok (map (fun i =>
               {| xdata := t;
                  ydata := masked_column (ride_height_data (fig_series fig)) mask i;
                  xlim := (default end_time (head t), default end_time (last t)) |})
            (lines cell fig))).

End Animate.

(** ** The data model's side *)

(** A loaded series is meant to be non-decreasing; the loader does not
    sort, so the theorems that need it say so. *)
Fixpoint non_decreasing (T : list Z) : bool :=
  match T with
  | x :: (y :: _) as T' => (x <=? y) && non_decreasing T'
  | _ => true
  end.

(** Every timestamp is a whole number of milliseconds, as in the logs
    that [modviz5.py] writes. *)
Definition on_ms_grid (T : list Z) : bool :=
  forallb (fun t => t mod ns_per_ms =? 0) T.

(** The frame mapping as the specification words it: the target time is
    [T[0] + frame * (1000 / target_fps)] milliseconds, an exact rational;
    the result is the index of the last timestamp that is at most the
    target, clamped to [[0, len(T) - 1]]. *)
Fixpoint spec_last_index_le (T : list Z) (x : Q) (i acc : Z) : Z :=
  match T with
  | [] => acc
  | t :: T' =>
      spec_last_index_le T' x (i + 1) (if Qle_bool (inject_Z t) x then i else acc)
  end.

Definition spec_frame_to_index (T : list Z) (f : Z) : Z :=
  let target_time :=
    (inject_Z (default 0%Z (head T))
     + inject_Z f * (inject_Z 1000 / inject_Z target_fps) * inject_Z ns_per_ms)%Q in
  clip (spec_last_index_le T target_time 0 (-1)) 0 (Z.of_nat (length T) - 1).

(** The cells of a record that stand under the channel columns, found by
    the column names. *)
Definition under_sensor_cols {cell : Type} (cols : list string) (r : list cell)
  : list cell :=
  map snd (List.filter (fun cr : string * cell => is_sensor_col cr.1) (zip cols r)).

End Playback.

(** * modviz5.py *)
Module Live.

(** ** Sensor configurations *)

(** Python [int] to [float]; exact below [2^53] (registers are 16-bit
    words). *)
Definition float_of_Z (z : Z) : float :=
  match z with
  | Z0 => PrimFloat.zero
  | Zpos _ => PrimFloat.of_uint63 (Uint63.of_Z z)
  | Zneg _ => PrimFloat.opp (PrimFloat.of_uint63 (Uint63.of_Z (Z.opp z)))
  end.

Record sensor_config := {
  PORT : string;
  BAUDRATE : Z;
  BYTESIZE : Z;
  PARITY : string;
  STOPBITS : Z;
  TIMEOUT : float;
  SLAVE_ADDRESS : Z;
  REGISTER_ADDRESS : Z;
  NUMBER_OF_REGISTERS : Z;
  FUNCTION_CODE : Z;
  (** read with [.get('REGISTER_INDEX_TO_LOG', 0)]: the key may be absent *)
  REGISTER_INDEX_TO_LOG : option Z;
  SCALE_FACTOR : float;
  NAME : string;
  UNIT : string;
  (** the optional ['scale_function'] entry; a Python callable may raise *)
  scale_function : option (Z -> pyresult float)
}.

Definition SENSORS : list sensor_config := [
  {| PORT := "COM12"; BAUDRATE := 115200; BYTESIZE := 8; PARITY := "N";
     STOPBITS := 1; TIMEOUT := 0.03%float; SLAVE_ADDRESS := 1;
     REGISTER_ADDRESS := 512; NUMBER_OF_REGISTERS := 3; FUNCTION_CODE := 3;
     REGISTER_INDEX_TO_LOG := Some 0%Z; SCALE_FACTOR := 1%float;
     NAME := "Sensor 1"; UNIT := "mm"; scale_function := None |};
  {| PORT := "COM12"; BAUDRATE := 115200; BYTESIZE := 8; PARITY := "N";
     STOPBITS := 1; TIMEOUT := 0.03%float; SLAVE_ADDRESS := 2;
     REGISTER_ADDRESS := 0; NUMBER_OF_REGISTERS := 2; FUNCTION_CODE := 3;
     REGISTER_INDEX_TO_LOG := Some 1%Z; SCALE_FACTOR := 1%float;
     NAME := "Sensor 2"; UNIT := "mm";
     scale_function :=
       Some (fun x_val =>
               Ok (PrimFloat.div (float_of_Z ((x_val - 1000) * 100)) 4096%float)) |}
].

(** ** CSV file setup *)

(** A field handed to [csv.writer]: [None] is written as the empty field. *)
Inductive field :=
| FStr (s : string)
| FNum (x : float)
| FNone.

Definition row := list field.

Definition CSV_HEADER : row :=
  FStr "Timestamp"
    :: map (fun sensor => FStr (NAME sensor +:+ " (" +:+ UNIT sensor +:+ ")")) SENSORS.

(** ** The outside world of one run *)

(** What can go wrong in one call of [write_to_csv]. *)
Inductive fault :=
| NoFault
(** [open(filename, 'r')] raises [PermissionError] *)
| ProbeDenied
(** [open(filename, 'a')] raises [PermissionError] *)
| AppendDenied
(** the writer raises [OSError] after [n] records reached the file *)
| WriteFails (n : nat).

(** [instrument.mode] *)
Inductive modbus_mode := MODE_RTU | MODE_ASCII.

(** A [minimalmodbus.Instrument].  The baud rate, byte size, parity, stop
    bits and timeout are attributes of its serial object, not of the
    instrument. *)
Record instrument := {
  (** the [serial.Serial] object behind [instrument.serial]; instruments
      with the same handle share it *)
  serial : nat;
  address : Z;
  mode : modbus_mode
}.

(** One assignment to an attribute of [instrument.serial] (lines 64-68). *)
Inductive setting :=
| Baudrate (v : Z)
| Bytesize (v : Z)
| Parity (v : string)
| Stopbits (v : Z)
| Timeout (v : float).

(** Lines 64-68, in order. *)
Definition serial_assignments (sensor_config : sensor_config) : list setting :=
  [Baudrate (BAUDRATE sensor_config);
   Bytesize (BYTESIZE sensor_config);
   Parity (PARITY sensor_config);
   Stopbits (STOPBITS sensor_config);
   Timeout (TIMEOUT sensor_config)].

Record world := {
  (** [minimalmodbus.Instrument(PORT, SLAVE_ADDRESS)] of lines 60-63 for
      the configuration at a position of the list: the handle of the serial
      object of the port, which it opens or finds open, or the exception *)
  open_port : nat -> sensor_config -> pyresult nat;
  (** lines 64-68 on that object: [None] when the five assignments go
      through; otherwise the number of assignments that took effect before
      an exception left the function, and the exception (the port stays
      open) *)
  settings_fault : nat -> sensor_config -> option (nat * exn);
  (** [instrument.read_registers(address, count, code)] in a round *)
  read_registers : nat -> instrument -> Z -> Z -> Z -> pyresult (list Z);
  (** the formatted [datetime.now()] of a round *)
  now : nat -> string;
  (** [time.time()] of line 151 and of line 169 in a round *)
  clock_start : float;
  clock_csv : nat -> float;
  (** fault of the [write_to_csv] call made in a round; the call of the
      cleanup uses the index after the last round *)
  io_fault : nat -> fault;
  (** number of loop tests that find [_running] still set: the window is
      closed, and [stop] clears the flag, before the next one *)
  rounds_before_stop : nat
}.

(** ** Helper functions *)

(** The result, the ports open afterwards, and the assignments that took
    effect, each with the serial object it went to. *)
Definition setup_minimalmodbus_instrument (w : world) (pos : nat)
    (sensor_config : sensor_config) (ports : gset nat)
  : pyresult instrument * gset nat * list (nat * setting) :=
  match open_port w pos sensor_config with
  | Ok h =>
      let ports := {[h]} ∪ ports in
      match settings_fault w pos sensor_config with
      | None =>
          (Ok {| serial := h;
                 address := SLAVE_ADDRESS sensor_config;
                 mode := MODE_RTU |},
           ports,
           map (pair h) (serial_assignments sensor_config))
      | Some (n, e) =>
          (Raise e, ports, map (pair h) (take n (serial_assignments sensor_config)))
      end
  | Raise e => (Raise e, ports, [])
  end.

Definition read_sensor_data (w : world) (round : nat) (instrument : instrument)
    (sensor_config : sensor_config) : pyresult (option float) :=
  try_except
    (bind (read_registers w round instrument
             (REGISTER_ADDRESS sensor_config)
             (NUMBER_OF_REGISTERS sensor_config)
             (FUNCTION_CODE sensor_config)) (fun registers =>
     let index_to_log := default 0%Z (REGISTER_INDEX_TO_LOG sensor_config) in
     bind (py_index registers index_to_log) (fun raw_value =>
     bind (match scale_function sensor_config with
           | Some f => f raw_value
           | None => Ok (PrimFloat.mul (float_of_Z raw_value)
                                       (SCALE_FACTOR sensor_config))
           end) (fun scaled_value =>
     Ok (Some scaled_value)))))
    (fun _ => Ok None).

(** The log file: [None] while it does not exist. *)
Definition file := option (list row).

(** [open(filename, 'r')] of lines 102-106. *)
Definition open_for_reading (flt : fault) (f : file) : pyresult unit :=
  match flt with
  | ProbeDenied => Raise PermissionError
  | _ => match f with Some _ => Ok tt | None => Raise FileNotFoundError end
  end.

Definition write_to_csv (flt : fault) (data_rows : list row) (f : file)
    (header : row) : pyresult unit * file :=
  if is_empty data_rows then (Ok tt, f)
  else
    let file_exists : pyresult bool :=
      match open_for_reading flt f with
      | Ok _ => Ok true
      | Raise FileNotFoundError => Ok false
      | Raise e => Raise e
      end in
    match file_exists with
    | Raise e => (Raise e, f)
    | Ok file_exists =>
        match flt with
        | AppendDenied => (Raise PermissionError, f)
        | _ =>
            (* the file is open for appending, created if it was missing *)
            let old := default [] f in
            let out := (if file_exists then [] else [header]) ++ data_rows in
            match flt with
            | WriteFails n =>
                if (n <? length out)%nat
                then (Raise OSError, Some (old ++ take n out))
                else (Ok tt, Some (old ++ out))
            | _ => (Ok tt, Some (old ++ out))
            end
        end
    end.

(** ** Sensor Reader Thread *)

Record item := {
  item_instrument : instrument;
  item_config : sensor_config
}.

Inductive message :=
| MsgConfigured (name port : string)
| MsgConfigFailed (name : string) (e : exn)
| MsgNoSensors
| MsgThreadStarted (filename : string)
| MsgAppended (n : nat)
| MsgStopping
| MsgAppendedRemaining (n : nat)
| MsgClosedPort (name : string).

(** What the thread does to its surroundings, in order. *)
Inductive event :=
| Printed (m : message)
(** [self.data_ready.emit(values)] *)
| Emitted (values : list (option float))
(** the log file after a call of [write_to_csv] that returned *)
| FileWritten (content : file)
(** an assignment to an attribute of the serial object [h] *)
| SerialSet (h : nat) (s : setting)
(** [serial.close()] on a handle *)
| PortClosed (h : nat).

(** The [SensorReader] object together with what it acts on: the serial
    ports that are open, the log file, and the trace of its effects. *)
Record state := {
  sensors_config : list sensor_config;
  csv_filename : string;
  csv_header : row;
  _running : bool;
  readings_buffer : list row;
  instruments : list item;
  open_ports : gset nat;
  disk : file;
  trace : list event
}.

(** [SensorReader.__init__] *)
Definition SensorReader (sensors_config : list sensor_config)
    (csv_filename : string) (csv_header : row)
    (ports : gset nat) (d : file) : state :=
  {| sensors_config := sensors_config;
     csv_filename := csv_filename;
     csv_header := csv_header;
     _running := true;
     readings_buffer := [];
     instruments := [];
     open_ports := ports;
     disk := d;
     trace := [] |}.

Definition set_running (b : bool) (st : state) : state :=
  {| sensors_config := sensors_config st; csv_filename := csv_filename st;
     csv_header := csv_header st; _running := b;
     readings_buffer := readings_buffer st; instruments := instruments st;
     open_ports := open_ports st; disk := disk st; trace := trace st |}.

Definition set_readings_buffer (b : list row) (st : state) : state :=
  {| sensors_config := sensors_config st; csv_filename := csv_filename st;
     csv_header := csv_header st; _running := _running st;
     readings_buffer := b; instruments := instruments st;
     open_ports := open_ports st; disk := disk st; trace := trace st |}.

Definition set_instruments (l : list item) (st : state) : state :=
  {| sensors_config := sensors_config st; csv_filename := csv_filename st;
     csv_header := csv_header st; _running := _running st;
     readings_buffer := readings_buffer st; instruments := l;
     open_ports := open_ports st; disk := disk st; trace := trace st |}.

Definition set_open_ports (p : gset nat) (st : state) : state :=
  {| sensors_config := sensors_config st; csv_filename := csv_filename st;
     csv_header := csv_header st; _running := _running st;
     readings_buffer := readings_buffer st; instruments := instruments st;
     open_ports := p; disk := disk st; trace := trace st |}.

Definition set_disk (d : file) (st : state) : state :=
  {| sensors_config := sensors_config st; csv_filename := csv_filename st;
     csv_header := csv_header st; _running := _running st;
     readings_buffer := readings_buffer st; instruments := instruments st;
     open_ports := open_ports st; disk := d; trace := trace st |}.

Definition emit (ev : list event) (st : state) : state :=
  {| sensors_config := sensors_config st; csv_filename := csv_filename st;
     csv_header := csv_header st; _running := _running st;
     readings_buffer := readings_buffer st; instruments := instruments st;
     open_ports := open_ports st; disk := disk st; trace := trace st ++ ev |}.

(** How a piece of [run] ends: it falls through or returns, or an
    exception leaves it; the state is what the object holds then. *)
Inductive outcome :=
| Returned (st : state)
| Raised (e : exn) (st : state).

(** Lines 136-142: one pass of the set-up loop. *)
Definition setup_one (w : world) (pos : nat) (cfg : sensor_config) (st : state)
  : state :=
  match setup_minimalmodbus_instrument w pos cfg (open_ports st) with
  | (Ok instrument, ports, made) =>
      emit (map (fun a => SerialSet a.1 a.2) made
            ++ [Printed (MsgConfigured (NAME cfg) (PORT cfg))])
        (set_instruments
           (instruments st ++ [{| item_instrument := instrument; item_config := cfg |}])
           (set_open_ports ports st))
  | (Raise e, ports, made) =>
      emit (map (fun a => SerialSet a.1 a.2) made
            ++ [Printed (MsgConfigFailed (NAME cfg) e)])
        (set_open_ports ports st)
  end.

Fixpoint setup_from (w : world) (pos : nat) (cfgs : list sensor_config)
    (st : state) : state :=
  match cfgs with
  | [] => st
  | cfg :: cfgs' => setup_from w (S pos) cfgs' (setup_one w pos cfg st)
  end.

Definition setup_instruments (w : world) (st : state) : state :=
  setup_from w 0 (sensors_config st) st.

(** Lines 157-160: the reads of one round, in order; an exception of a
    read would leave the loop. *)
Fixpoint read_all (w : world) (round : nat) (items : list item)
  : pyresult (list (option float)) :=
  match items with
  | [] => Ok []
  | it :: items' =>
      bind (read_sensor_data w round (item_instrument it) (item_config it))
        (fun sensor_value =>
      bind (read_all w round items') (fun rest =>
      Ok (sensor_value :: rest)))
  end.

Definition field_of (v : option float) : field :=
  match v with Some x => FNum x | None => FNone end.

(** [(current_time_for_csv - start_time_csv_write) >= self.csv_write_frequency_s] *)
Definition csv_write_frequency_s : float := 1%float.
Definition flush_due (current_time_for_csv start_time_csv_write : float) : bool :=
  PrimFloat.leb csv_write_frequency_s
    (PrimFloat.sub current_time_for_csv start_time_csv_write).

(** Lines 154-183: the body of the [while] loop for round [r]; the second
    component is [start_time_csv_write] after it.  The sleep of lines
    178-183 changes nothing but the time, which the world supplies. *)
Definition sample_round (w : world) (r : nat) (start_time_csv_write : float)
    (st : state) : outcome * float :=
  let timestamp_for_reading := now w r in
  match read_all w r (instruments st) with
  | Raise e => (Raised e st, start_time_csv_write)
  | Ok current_data_row_values =>
      let st := emit [Emitted current_data_row_values] st in
      let st :=
        set_readings_buffer
          (readings_buffer st
             ++ [FStr timestamp_for_reading :: map field_of current_data_row_values])
          st in
      let current_time_for_csv := clock_csv w r in
      if flush_due current_time_for_csv start_time_csv_write then
        if is_empty (readings_buffer st) then (Returned st, current_time_for_csv)
        else
          match write_to_csv (io_fault w r) (readings_buffer st) (disk st)
                  (csv_header st) with
          | (Raise e, d) => (Raised e (set_disk d st), start_time_csv_write)
          | (Ok _, d) =>
              let st := emit [FileWritten d] (set_disk d st) in
              let st := emit [Printed (MsgAppended (length (readings_buffer st)))] st in
              (Returned (set_readings_buffer [] st), current_time_for_csv)
          end
      else (Returned st, start_time_csv_write)
  end.

(** [SensorReader.stop] as far as the object goes: the flag is cleared;
    [self.wait()] then holds the caller until [run] has returned. *)
Definition stop (st : state) : state := set_running false st.

(** Lines 153-185.  [until_stop] counts the loop tests that still find the
    flag set; when it is used up, [stop] has run in the window's context
    and the flag is clear at the test. *)
Fixpoint sampling_loop (w : world) (until_stop : nat) (r : nat)
    (start_time_csv_write : float) (st : state) : outcome :=
  match until_stop with
  | O => Returned (stop st)
  | S until_stop' =>
      if _running st then
        match sample_round w r start_time_csv_write st with
        | (Returned st', start') => sampling_loop w until_stop' (S r) start' st'
        | (Raised e st', _) => Raised e st'
        end
      else Returned st
  end.

(** Lines 194-197. *)
Fixpoint close_ports (items : list item) (st : state) : state :=
  match items with
  | [] => st
  | it :: items' =>
      let h := serial (item_instrument it) in
      if bool_decide (h ∈ open_ports st) then
        close_ports items'
          (emit [PortClosed h; Printed (MsgClosedPort (NAME (item_config it)))]
             (set_open_ports (open_ports st ∖ {[h]}) st))
      else close_ports items' st
  end.

(** Lines 187-197; [k] indexes the fault of the final write. *)
Definition cleanup (w : world) (k : nat) (st : state) : outcome :=
  let st := emit [Printed MsgStopping] st in
  let flushed :=
    if is_empty (readings_buffer st) then Returned st
    else
      match write_to_csv (io_fault w k) (readings_buffer st) (disk st)
              (csv_header st) with
      | (Raise e, d) => Raised e (set_disk d st)
      | (Ok _, d) =>
          let st := emit [FileWritten d] (set_disk d st) in
          Returned (emit [Printed (MsgAppendedRemaining (length (readings_buffer st)))] st)
      end in
  match flushed with
  | Raised e st => Raised e st
  | Returned st => Returned (close_ports (instruments st) st)
  end.

(** [SensorReader.run] *)
Definition run (w : world) (st : state) : outcome :=
  let st := setup_instruments w st in
  if is_empty (instruments st) then
    Returned (set_running false (emit [Printed MsgNoSensors] st))
  else
    let st := emit [Printed (MsgThreadStarted (csv_filename st))] st in
    let start_time_csv_write := clock_start w in
    match sampling_loop w (rounds_before_stop w) 0 start_time_csv_write st with
    | Raised e st => Raised e st
    | Returned st => cleanup w (rounds_before_stop w) st
    end.

(** ** Main execution *)

(** Sampling rounds carried out, read off the trace. *)
Definition rounds_executed (tr : list event) : nat :=
  length (List.filter (fun ev => match ev with Emitted _ => true | _ => false end) tr).

(** Exit status of the interpreter once the window is closed and
    [app.exec_()] has returned: the script ends without [sys.exit], so the
    status is 0 whenever the thread body returned.  What PyQt does with an
    exception that escapes [run] is not modelled ([None]). *)
Definition exit_status (t : outcome) : option Z :=
  match t with Returned _ => Some 0%Z | Raised _ _ => None end.

Record process := {
  thread : outcome;
  exit_code : option Z
}.

(** Lines 283-297 for a run in which the window is eventually closed.
    [start_time_str] is the formatted start time in the file name. *)
Definition main (w : world) (start_time_str : string) (ports : gset nat)
    (d : file) : process :=
  let CSV_FILENAME := "sensor_data_" +:+ start_time_str +:+ ".csv" in
  let sensor_reader := SensorReader SENSORS CSV_FILENAME CSV_HEADER ports d in
  let t := run w sensor_reader in
  {| thread := t; exit_code := exit_status t |}.

(** ** Notions used to state the properties *)

Definition state_of (o : outcome) : state :=
  match o with Returned st => st | Raised _ st => st end.

Definition is_close_event (ev : event) : bool :=
  match ev with
  | PortClosed _ | Printed (MsgClosedPort _) => true
  | _ => false
  end.

(** The content of the log once something is appended to it: the header
    comes first in a file that did not exist. *)
Definition with_header (f : file) (header : row) : list row :=
  match f with None => [header] | Some old => old end.

(** The row a round puts into the buffer. *)
Definition round_row (w : world) (r : nat) (values : list (option float)) : row :=
  FStr (now w r) :: map field_of values.

(** The exception that leaves the set-up of a configuration, if any. *)
Definition setup_raises (w : world) (pos : nat) (cfg : sensor_config) : option exn :=
  match open_port w pos cfg with
  | Raise e => Some e
  | Ok _ => snd <$> settings_fault w pos cfg
  end.

(** The configurations whose set-up succeeds, in order. *)
Fixpoint configured (w : world) (pos : nat) (cfgs : list sensor_config)
  : list sensor_config :=
  match cfgs with
  | [] => []
  | cfg :: cfgs' =>
      match setup_raises w pos cfg with
      | None => cfg :: configured w (S pos) cfgs'
      | Some _ => configured w (S pos) cfgs'
      end
  end.

Definition values_at (w : world) (r : nat) (items : list item) : list (option float) :=
  match read_all w r items with Ok values => values | Raise _ => [] end.

(** The rows of rounds [r0], ..., [r0 + k - 1]. *)
Definition rows_of (w : world) (items : list item) (r0 k : nat) : list row :=
  map (fun r => round_row w r (values_at w r items)) (seq r0 k).

(** The rows sampled so far are those in the file after its header,
    followed by those still buffered. *)
Definition log_inv (st : state) (rows : list row) : Prop :=
  match disk st with
  | None => readings_buffer st = rows
  | Some content =>
      exists flushed, content = csv_header st :: flushed /\ flushed <> [] /\
                      flushed ++ readings_buffer st = rows
  end.

(** The vectors a trace emitted, in order. *)
Definition emitted (tr : list event) : list (list (option float)) :=
  omap (fun ev => match ev with Emitted values => Some values | _ => None end) tr.

(** The handles a trace closed, in order. *)
Definition closed_ports (tr : list event) : list nat :=
  omap (fun ev => match ev with PortClosed h => Some h | _ => None end) tr.

(** The serial objects behind a list of instruments. *)
Definition handles (items : list item) : list nat :=
  map (fun it => serial (item_instrument it)) items.

(** The assignments a trace made to the serial object [h], in order. *)
Definition assigned_to (h : nat) (tr : list event) : list setting :=
  omap (fun ev => match ev with
                  | SerialSet h' s => if decide (h' = h) then Some s else None
                  | _ => None
                  end) tr.

End Live.

(** * modviz5.py: the window *)
Module Display.
Import Live.

(** [collections.deque(maxlen=...)]: [append] on a full deque drops the
    oldest entry. *)
Definition deque_append {A} (maxlen : nat) (d : list A) (x : A) : list A :=
  let d' := d ++ [x] in
  drop (length d' - maxlen) d'.

(** The [maxlen] of the rolling buffers (line 238). *)
Definition PLOT_POINTS : nat := 200.

(** What [setData] gave a curve last (line 268). *)
Record curve := {
  x_data : list nat;
  y_data : list float
}.

(** The part of the window that [update_plot] reads and writes; the
    widgets, labels and pens of lines 209-240 have no part in it. *)
Record MainWindow := {
  plot_curves : list curve;
  data_buffers : list (list float)
}.

(** [MainWindow.__init__]: one curve without data and one empty deque per
    entry of [SENSORS] (lines 225-240). *)
Definition MainWindow_init : MainWindow :=
  {| plot_curves := map (fun _ => {| x_data := []; y_data := [] |}) SENSORS;
     data_buffers := map (fun _ => []) SENSORS |}.

(** The loop of [update_plot] from position [i] on (lines 255-268).  An
    index past the lists raises [IndexError]; what was appended before
    stays appended.  [current_time_s] of line 252 is not used. *)
Fixpoint update_from (i : nat) (sensor_values : list (option float))
    (win : MainWindow) : pyresult unit * MainWindow :=
  match sensor_values with
  | [] => (Ok tt, win)
  | value :: rest =>
      match data_buffers win !! i with
      | None => (Raise IndexError, win)
      | Some buffer =>
          let appended :=
            match value with
            | Some v => deque_append PLOT_POINTS buffer v
            | None => deque_append PLOT_POINTS buffer PrimFloat.nan
            end in
          let win :=
            {| plot_curves := plot_curves win;
               data_buffers := <[i := appended]> (data_buffers win) |} in
          match plot_curves win !! i with
          | None => (Raise IndexError, win)
          | Some _ =>
              let drawn :=
                {| x_data := seq 0 (length appended); y_data := appended |} in
              update_from (S i) rest
                {| plot_curves := <[i := drawn]> (plot_curves win);
                   data_buffers := data_buffers win |}
          end
      end
  end.

Definition update_plot (sensor_values : list (option float)) (win : MainWindow)
  : pyresult unit * MainWindow :=
  update_from 0 sensor_values win.

(** The window after the slot has run for every vector of a list.  The
    signal is emitted in the thread and connected to the slot of the window
    (line 243), so the calls are queued and the event loop runs them one by
    one in the order of the emissions; the first call that raises ends the
    delivery. *)
Fixpoint deliver (rounds : list (list (option float))) (win : MainWindow)
  : pyresult unit * MainWindow :=
  match rounds with
  | [] => (Ok tt, win)
  | values :: rounds' =>
      match update_plot values win with
      | (Ok _, win') => deliver rounds' win'
      | (Raise e, win') => (Raise e, win')
      end
  end.

(** What channel [i] contributes to its buffer in a round. *)
Definition plotted (i : nat) (values : list (option float)) : option float :=
  match values !! i with
  | Some (Some v) => Some v
  | Some None => Some PrimFloat.nan
  | None => None
  end.

(** The last [m] elements. *)
Definition last_n {A} (m : nat) (l : list A) : list A := drop (length l - m) l.

(** Every curve shows the content of its buffer against the indices. *)
Definition shows_buffers (win : MainWindow) : Prop :=
  plot_curves win
  = map (fun buffer => {| x_data := seq 0 (length buffer); y_data := buffer |})
      (data_buffers win).

(** Buffer and curve [j] after the loop of [update_plot] from position
    [i]. *)
Definition buffer_after (i j : nat) (values : list (option float)) (buf : list float)
  : list float :=
  if (i <=? j)%nat then
    match plotted (j - i) values with
    | Some x => deque_append PLOT_POINTS buf x
    | None => buf
    end
  else buf.

Definition curve_after (i j : nat) (values : list (option float)) (buf : list float)
    (c : curve) : curve :=
  if (i <=? j)%nat then
    match plotted (j - i) values with
    | Some x =>
        let buf' := deque_append PLOT_POINTS buf x in
        {| x_data := seq 0 (length buf'); y_data := buf' |}
    | None => c
    end
  else c.

End Display.

(** * Sample data *)
Module Samples.
Import Playback Live.

(** Timestamps with sub-millisecond digits: 0 and 33.2 ms. *)
Definition sub_ms_series : list Z := [0; 33200000]%Z.

(** Samples at 0, 100 and 200 ms. *)
Definition tenth_second_series : list Z := [0; 100000000; 200000000]%Z.

(** Samples at 0 s, 0.1 s and 5 s. *)
Definition gap_series : list Z := [0; 100000000; 5000000000]%Z.

Definition toy_to_datetime (s : string) : option Z :=
  if String.eqb s "2024-01-01 10:00:00.000" then Some 1704103200000000000%Z
  else if String.eqb s "2024-01-01 10:00:00.100" then Some 1704103200100000000%Z
  else None.

(** A log with its header and no record. *)
Definition header_only : DataFrame string :=
  {| columns := ["Timestamp"; "Sensor 1 (mm)"]; records := [] |}.

(** Five channel columns among others; the second record has a bad
    timestamp. *)
Definition five_channels : DataFrame string :=
  {| columns := ["A (mm)"; "Timestamp"; "B (mm)"; "note"; "C (mm)"; "D (mm)"; "E (mm)"];
     records :=
       [["1"; "2024-01-01 10:00:00.000"; "2"; "x"; "3"; "4"; "5"];
        ["6"; "10 o'clock"; "7"; "y"; "8"; "9"; "10"];
        ["11"; "2024-01-01 10:00:00.100"; "12"; "z"; "13"; "14"; "15"]] |}.

(** What [five_channels] loads as. *)
Definition five_channels_series : series string :=
  {| sensor_cols := ["A (mm)"; "B (mm)"; "C (mm)"; "D (mm)"; "E (mm)"];
     ride_height_data := [["1"; "2"; "3"; "4"; "5"]; ["11"; "12"; "13"; "14"; "15"]];
     time_data := [1704103200000000000; 1704103200100000000]%Z |}.

Definition sample_now (r : nat) : string :=
  match r with
  | 0 => "2024-01-01 10:00:00.000"
  | 1 => "2024-01-01 10:00:00.033"
  | 2 => "2024-01-01 10:00:00.067"
  | _ => "2024-01-01 10:00:00.100"
  end%nat.

(** Both sensors sit on one serial object; the second one does not answer
    in round 1; the write interval has elapsed in round 2; the window is
    closed after four rounds. *)
Definition bench_world : world :=
  {| open_port := fun _ _ => Ok 7%nat;
     settings_fault := fun _ _ => None;
     read_registers := fun r ins _ _ _ =>
       if (address ins =? 1)%Z then Ok [1750; 0; 0]%Z
       else if (r =? 1)%nat then Raise NoResponseError
       else Ok [0; 2024]%Z;
     now := sample_now;
     clock_start := 100%float;
     clock_csv := fun r =>
       match r with
       | 0%nat => 100.25%float
       | 1%nat => 100.5%float
       | 2%nat => 101.25%float
       | _ => 101.5%float
       end;
     io_fault := fun _ => NoFault;
     rounds_before_stop := 4 |}.

(** No port can be opened. *)
Definition dead_world : world :=
  {| open_port := fun _ _ => Raise SerialException;
     settings_fault := fun _ _ => None;
     read_registers := read_registers bench_world;
     now := sample_now;
     clock_start := 100%float;
     clock_csv := clock_csv bench_world;
     io_fault := fun _ => NoFault;
     rounds_before_stop := 4 |}.

(** The log cannot be opened for appending, and the first round is already
    past the write interval. *)
Definition denied_world : world :=
  {| open_port := fun _ _ => Ok 7%nat;
     settings_fault := fun _ _ => None;
     read_registers := read_registers bench_world;
     now := sample_now;
     clock_start := 100%float;
     clock_csv := fun _ => 101.5%float;
     io_fault := fun _ => AppendDenied;
     rounds_before_stop := 4 |}.

(** The window is closed after one round, before the write interval has
    elapsed. *)
Definition quick_world : world :=
  {| open_port := fun _ _ => Ok 7%nat;
     settings_fault := fun _ _ => None;
     read_registers := read_registers bench_world;
     now := sample_now;
     clock_start := 100%float;
     clock_csv := fun _ => 100.25%float;
     io_fault := fun _ => NoFault;
     rounds_before_stop := 1 |}.

(** The set-up of the first sensor fails at the opening of the port; the
    second sensor is set up.  Otherwise as [bench_world]. *)
Definition half_world : world :=
  {| open_port := fun pos _ =>
       if (pos =? 0)%nat then Raise SerialException else Ok 7%nat;
     settings_fault := fun _ _ => None;
     read_registers := read_registers bench_world;
     now := sample_now;
     clock_start := 100%float;
     clock_csv := clock_csv bench_world;
     io_fault := fun _ => NoFault;
     rounds_before_stop := 4 |}.

(** The window is closed after two rounds, before the write interval has
    elapsed; the log cannot be opened for appending at the final write. *)
Definition late_fault_world : world :=
  {| open_port := fun _ _ => Ok 7%nat;
     settings_fault := fun _ _ => None;
     read_registers := read_registers bench_world;
     now := sample_now;
     clock_start := 100%float;
     clock_csv := fun _ => 100.25%float;
     io_fault := fun k => if (k =? 2)%nat then AppendDenied else NoFault;
     rounds_before_stop := 2 |}.

Definition sample_reader : state :=
  SensorReader SENSORS "sensor_data_20240101_100000.csv" CSV_HEADER ∅ None.

(** The reader of [w] with its instruments set up and the start message
    printed, as it enters the loop. *)
Definition at_loop_entry (w : world) : state :=
  let st := setup_instruments w sample_reader in
  emit [Printed (MsgThreadStarted (csv_filename st))] st.

(** The reader of [w] as it leaves the loop. *)
Definition at_stop (w : world) : state :=
  state_of (sampling_loop w (rounds_before_stop w) 0 (clock_start w) (at_loop_entry w)).

(** Two records carry the first timestamp; the third comes 100 ms later. *)
Definition repeated_start_series : list Z := [0; 0; 100000000]%Z.

(** The figure of [five_channels]: the first four channel columns. *)
Definition five_channels_figure : figure string :=
  {| fig_series :=
       {| sensor_cols := ["A (mm)"; "B (mm)"; "C (mm)"; "D (mm)"];
          ride_height_data := [["1"; "2"; "3"; "4"]; ["11"; "12"; "13"; "14"]];
          time_data := [1704103200000000000; 1704103200100000000]%Z |};
     num_sensors := 4;
     subplot_grid := (2, 2)%nat |}.

(** The second sensor's instrument. *)
Definition sample_instrument : instrument :=
  {| serial := 7; address := 2; mode := MODE_RTU |}.

(** A third sensor on the same port, configured for another baud rate. *)
Definition slow_sensor : sensor_config :=
  {| PORT := "COM12"; BAUDRATE := 9600; BYTESIZE := 8; PARITY := "E";
     STOPBITS := 1; TIMEOUT := 0.1%float; SLAVE_ADDRESS := 3;
     REGISTER_ADDRESS := 0; NUMBER_OF_REGISTERS := 1; FUNCTION_CODE := 3;
     REGISTER_INDEX_TO_LOG := None; SCALE_FACTOR := 1%float;
     NAME := "Sensor 3"; UNIT := "mm"; scale_function := None |}.

(** A configuration that logs the last register of the block it reads. *)
Definition last_register_sensor : sensor_config :=
  {| PORT := "COM12"; BAUDRATE := 115200; BYTESIZE := 8; PARITY := "N";
     STOPBITS := 1; TIMEOUT := 0.03%float; SLAVE_ADDRESS := 2;
     REGISTER_ADDRESS := 0; NUMBER_OF_REGISTERS := 2; FUNCTION_CODE := 3;
     REGISTER_INDEX_TO_LOG := Some (-1)%Z; SCALE_FACTOR := 0.5%float;
     NAME := "Stroke"; UNIT := "mm"; scale_function := None |}.

End Samples.

(** * Properties of viz.py *)
Module PlaybackFacts.
Import Playback Samples.
Local Open Scope Z_scope.

(** ** Non-decreasing sequences *)

Lemma mid_idx_bounds (lo hi : nat) :
  (lo < hi)%nat -> (lo <= lo + (hi - lo) / 2 < hi)%nat.
Proof.
  intros H. pose proof (Nat.div_mod_eq (hi - lo) 2) as E.
  pose proof (Nat.mod_upper_bound (hi - lo) 2). lia.
Qed.

Lemma non_decreasing_head x T :
  non_decreasing (x :: T) = true ->
  forall j y, T !! j = Some y -> x <= y.
Proof.
  revert x. induction T as [|z T IH]; intros x H j y Hj; [done|].
  cbn [non_decreasing] in H. apply andb_true_iff in H as [Hxz Hrest].
  apply Z.leb_le in Hxz.
  destruct j as [|j]; simpl in Hj.
  - by simplify_eq.
  - specialize (IH z Hrest j y Hj). lia.
Qed.

Lemma non_decreasing_tail x T :
  non_decreasing (x :: T) = true -> non_decreasing T = true.
Proof.
  destruct T as [|z T]; [done|]. cbn [non_decreasing].
  intros H. by apply andb_true_iff in H as [_ ?].
Qed.

Lemma non_decreasing_lookup T :
  non_decreasing T = true ->
  forall i j x y, (i <= j)%nat -> T !! i = Some x -> T !! j = Some y -> x <= y.
Proof.
  induction T as [|z T IH]; intros H i j x y Hij Hi Hj; [done|].
  destruct i as [|i], j as [|j]; simpl in *; simplify_eq; try lia.
  - eapply non_decreasing_head; eauto.
  - eapply (IH (non_decreasing_tail _ _ H) i j); eauto with lia.
Qed.

Lemma non_decreasing_total T i j :
  non_decreasing T = true -> (i <= j < length T)%nat -> T !!! i <= T !!! j.
Proof.
  intros H Hij.
  eapply (non_decreasing_lookup T H i j); [lia| |];
    apply list_lookup_lookup_total_lt; lia.
Qed.

(** ** The binary search *)

Section BinarySearch.
Variable a : list Z.

Lemma binsearch_right_bounds fuel key lo hi :
  (lo <= hi)%nat ->
  (lo <= binsearch_right fuel a key lo hi <= hi)%nat.
Proof.
  revert lo hi. induction fuel as [|fuel IH]; intros lo hi Hle; cbn [binsearch_right]; [lia|].
  destruct (Nat.ltb_spec lo hi) as [Hlt|Hge]; [|lia].
  pose proof (mid_idx_bounds lo hi Hlt) as Hmid.
  destruct (key <? a !!! _).
  - specialize (IH lo (lo + (hi - lo) / 2)%nat). lia.
  - specialize (IH (S (lo + (hi - lo) / 2)) hi). lia.
Qed.

Lemma binsearch_right_mono fuel key1 key2 lo hi :
  key1 <= key2 -> (lo <= hi)%nat ->
  (binsearch_right fuel a key1 lo hi <= binsearch_right fuel a key2 lo hi)%nat.
Proof.
  intros Hk. revert lo hi.
  induction fuel as [|fuel IH]; intros lo hi Hle; cbn [binsearch_right]; [lia|].
  destruct (Nat.ltb_spec lo hi) as [Hlt|Hge]; [|lia].
  pose proof (mid_idx_bounds lo hi Hlt) as Hmid.
  set (mid := (lo + (hi - lo) / 2)%nat) in *.
  destruct (Z.ltb_spec key1 (a !!! mid)), (Z.ltb_spec key2 (a !!! mid)).
  - apply IH; lia.
  - pose proof (binsearch_right_bounds fuel key1 lo mid).
    pose proof (binsearch_right_bounds fuel key2 (S mid) hi). lia.
  - lia.
  - apply IH; lia.
Qed.

(** On a non-decreasing array, with fuel for every halving, the search
    returns the number of elements that are at most the key. *)
Lemma binsearch_right_sorted fuel key lo hi :
  non_decreasing a = true ->
  (hi - lo <= fuel)%nat -> (lo <= hi <= length a)%nat ->
  (forall i, (i < lo)%nat -> a !!! i <= key) ->
  (forall i, (hi <= i < length a)%nat -> key < a !!! i) ->
  let r := binsearch_right fuel a key lo hi in
  (forall i, (i < r)%nat -> a !!! i <= key) /\
  (forall i, (r <= i < length a)%nat -> key < a !!! i).
Proof.
  intros Hs. revert lo hi.
  induction fuel as [|fuel IH]; intros lo hi Hf Hb Hlo Hhi; cbn [binsearch_right].
  - split; [done|]. intros i Hi. apply Hhi. lia.
  - destruct (Nat.ltb_spec lo hi) as [Hlt|Hge].
    2:{ split; [done|]. intros i Hi. apply Hhi. lia. }
    pose proof (mid_idx_bounds lo hi Hlt) as Hmid.
    set (mid := (lo + (hi - lo) / 2)%nat) in *.
    destruct (Z.ltb_spec key (a !!! mid)) as [Hk|Hk].
    + apply IH; [lia|lia|done|].
      intros i Hi. pose proof (non_decreasing_total a mid i Hs). lia.
    + apply IH; [lia|lia| |done].
      intros i Hi. pose proof (non_decreasing_total a i mid Hs). lia.
Qed.

Lemma searchsorted_right_sorted key :
  non_decreasing a = true ->
  let r := searchsorted_right a key in
  (r <= length a)%nat /\
  (forall i, (i < r)%nat -> a !!! i <= key) /\
  (forall i, (r <= i < length a)%nat -> key < a !!! i).
Proof.
  intros Hs. unfold searchsorted_right. split.
  - apply binsearch_right_bounds. lia.
  - apply binsearch_right_sorted; [done|lia|lia| |]; intros; lia.
Qed.

Lemma searchsorted_right_mono key1 key2 :
  key1 <= key2 -> (searchsorted_right a key1 <= searchsorted_right a key2)%nat.
Proof. intros. apply binsearch_right_mono; [done|lia]. Qed.

End BinarySearch.

(** ** The frame mapping *)

Lemma total_duration_zero T :
  Qeq_bool (total_duration_s T) 0 =
  negb (1 <? length T)%nat || (default 0 (last T) =? default 0 (head T)).
Proof.
  unfold total_duration_s. destruct (1 <? length T)%nat; [|done].
  cbn [negb orb].
  generalize (default 0 (last T)) (default 0 (head T)). intros x y.
  unfold Qeq_bool, Qdiv, Qmult, Qinv, inject_Z, ns_per_s. simpl.
  destruct (Z.eqb_spec x y), (Z.eqb_spec ((x - y) * 1 * 1) 0); try done; lia.
Qed.

Lemma frame_offset_ms_mono f1 f2 :
  f1 <= f2 -> frame_offset_ms f1 <= frame_offset_ms f2.
Proof.
  intros H. unfold frame_offset_ms, target_fps.
  apply Z.quot_le_mono; lia.
Qed.

Lemma frame_offset_ms_nonneg f : 0 <= f -> 0 <= frame_offset_ms f.
Proof.
  intros H. unfold frame_offset_ms, target_fps. apply Z.quot_pos; lia.
Qed.

Lemma clip_mono x y lo hi : x <= y -> clip x lo hi <= clip y lo hi.
Proof. unfold clip. lia. Qed.

(** C4.  The frame mapping is monotone: for every timestamp sequence
    (sorted or not) and all frame numbers [f1 < f2], the index of [f1] is
    at most the index of [f2]. *)
Theorem get_frame_time_idx_monotone (time_data : list Z) (f1 f2 : Z) :
  f1 < f2 ->
  get_frame_time_idx time_data f1 <= get_frame_time_idx time_data f2.
Proof.
  intros Hf. unfold get_frame_time_idx.
  destruct (Qeq_bool _ 0 || _); [done|].
  apply clip_mono.
  pose proof (frame_offset_ms_mono f1 f2 ltac:(lia)) as Hoff.
  pose proof (searchsorted_right_mono time_data
    (default 0 (head time_data) + frame_offset_ms f1 * ns_per_ms)
    (default 0 (head time_data) + frame_offset_ms f2 * ns_per_ms)) as Hs.
  unfold ns_per_ms in *. lia.
Qed.

Lemma get_frame_time_idx_degenerate T f :
  length T = 1%nat \/ default 0 (last T) = default 0 (head T) ->
  get_frame_time_idx T f = 0.
Proof.
  intros H. unfold get_frame_time_idx. rewrite total_duration_zero.
  destruct H as [H|H].
  - rewrite H. by rewrite orb_true_r.
  - rewrite H, Z.eqb_refl. by rewrite !orb_true_r.
Qed.

(** Away from the degenerate cases the mapping is the clipped search. *)
Lemma get_frame_time_idx_regular T f :
  (2 <= length T)%nat -> default 0 (head T) <> default 0 (last T) ->
  get_frame_time_idx T f
  = clip (Z.of_nat (searchsorted_right T
                      (default 0 (head T) + frame_offset_ms f * ns_per_ms)) - 1)
      0 (Z.of_nat (length T) - 1).
Proof.
  intros Hlen Hdur. unfold get_frame_time_idx. rewrite total_duration_zero.
  destruct (Nat.ltb_spec 1 (length T)) as [_|?]; [|lia].
  destruct (Z.eqb_spec (default 0 (last T)) (default 0 (head T))) as [?|_]; [lia|].
  by destruct (Nat.eqb_spec (length T) 1) as [?|_]; [lia|].
Qed.

(** C3, as amended.  With a single timestamp or a zero total duration the
    mapping returns 0.  On a non-decreasing sequence of at least two
    timestamps with positive total duration and for a frame [f >= 0], it
    returns the index of the last timestamp that is at most
    [T[0] + trunc(f * 1000 / target_fps)] milliseconds, the offset being
    cut to whole milliseconds; that index lies in [[0, len(T) - 1]]. *)
Theorem get_frame_time_idx_last_le (T : list Z) (f : Z) :
  (length T = 1%nat \/ default 0 (last T) = default 0 (head T) ->
   get_frame_time_idx T f = 0) /\
  (non_decreasing T = true -> (2 <= length T)%nat ->
   default 0 (head T) < default 0 (last T) -> 0 <= f ->
   let target_time := default 0 (head T) + (f * 1000) ÷ target_fps * ns_per_ms in
   let i := Z.to_nat (get_frame_time_idx T f) in
   0 <= get_frame_time_idx T f <= Z.of_nat (length T) - 1 /\
   T !!! i <= target_time /\
   forall j, (i < j < length T)%nat -> target_time < T !!! j).
Proof.
  split; [apply get_frame_time_idx_degenerate|].
  intros Hs Hlen Hdur Hf target_time i.
  pose proof (get_frame_time_idx_regular T f Hlen ltac:(lia)) as Hidx.
  fold (frame_offset_ms f) in target_time. fold target_time in Hidx.
  destruct (searchsorted_right_sorted T target_time Hs) as (Hr & Hlo & Hhi).
  assert (1 <= searchsorted_right T target_time)%nat.
  { destruct (searchsorted_right T target_time) eqn:E; [|lia].
    specialize (Hhi 0%nat ltac:(lia)).
    pose proof (frame_offset_ms_nonneg f Hf).
    destruct T as [|t0 T']; [simpl in Hlen; lia|].
    subst target_time. unfold ns_per_ms in *. simpl in Hhi. lia. }
  unfold clip in Hidx.
  assert (Hi : i = (searchsorted_right T target_time - 1)%nat) by (subst i; lia).
  split; [lia|]. split.
  - apply Hlo. lia.
  - intros j Hj. apply Hhi. lia.
Qed.

(** ** Agreement with the specification on whole milliseconds *)

Lemma filter_none {A} (p : A -> bool) (l : list A) :
  (forall x, x ∈ l -> p x = false) -> List.filter p l = [].
Proof.
  induction l as [|x l IH]; intros H; [done|]. simpl.
  rewrite (H x) by apply list_elem_of_here.
  apply IH. intros y Hy. apply H. by apply list_elem_of_further.
Qed.

(** On a non-decreasing list a test that holds below every value at which
    it holds selects a prefix; the scan of the specification then ends on
    the last element of that prefix. *)
Lemma spec_last_index_le_count (x : Q) (T : list Z) : forall i acc,
  non_decreasing T = true ->
  spec_last_index_le T x i acc
  = let c := length (List.filter (fun t => Qle_bool (inject_Z t) x) T) in
    if (c =? 0)%nat then acc else i + Z.of_nat c - 1.
Proof.
  induction T as [|t T IH]; intros i acc Hs; [done|].
  cbn [spec_last_index_le List.filter].
  pose proof (non_decreasing_tail _ _ Hs) as Hs'.
  rewrite (IH _ _ Hs'). cbv zeta.
  destruct (Qle_bool (inject_Z t) x) eqn:Ht.
  - cbn [length]. destruct (length _) as [|c] eqn:Ec; cbn [Nat.eqb]; lia.
  - rewrite filter_none; [done|].
    intros y Hy. apply list_elem_of_lookup in Hy as [j Hj].
    pose proof (non_decreasing_head _ _ Hs j y Hj) as Hle.
    destruct (Qle_bool (inject_Z y) x) eqn:Hy; [|done].
    apply Qle_bool_iff in Hy.
    assert (Qle_bool (inject_Z t) x = true); [|congruence].
    apply Qle_bool_iff. apply (Qle_trans _ (inject_Z y)); [|exact Hy].
    rewrite <- Zle_Qle. lia.
Qed.

Lemma count_le_split (key : Z) (T : list Z) : forall r,
  (r <= length T)%nat ->
  (forall i, (i < r)%nat -> T !!! i <= key) ->
  (forall i, (r <= i < length T)%nat -> key < T !!! i) ->
  length (List.filter (fun t => t <=? key) T) = r.
Proof.
  induction T as [|t T IH]; intros r Hr Hlo Hhi.
  - simpl in *. lia.
  - destruct r as [|r].
    + rewrite filter_none; [done|].
      intros y Hy. apply list_elem_of_lookup in Hy as [j Hj].
      pose proof (lookup_lt_Some _ _ _ Hj).
      specialize (Hhi j ltac:(lia)).
      rewrite (list_lookup_total_correct _ _ _ Hj) in Hhi. lia.
    + cbn [List.filter]. specialize (Hlo 0%nat ltac:(lia)) as Ht. simpl in Ht.
      destruct (Z.leb_spec t key); [|lia]. cbn [length]. f_equal.
      apply IH.
      * simpl in Hr. lia.
      * intros i Hi. apply (Hlo (S i)). lia.
      * intros i Hi. apply (Hhi (S i)). simpl. lia.
Qed.

Lemma exact_target_on_grid (t t0 f : Z) :
  0 <= f -> t mod ns_per_ms = 0 -> t0 mod ns_per_ms = 0 ->
  Qle_bool (inject_Z t)
    (inject_Z t0 + inject_Z f * (inject_Z 1000 / inject_Z target_fps) * inject_Z ns_per_ms)
  = (t <=? t0 + frame_offset_ms f * ns_per_ms).
Proof.
  intros Hf Ht Ht0.
  apply Z.mod_divide in Ht as [a ->]; [|done].
  apply Z.mod_divide in Ht0 as [b ->]; [|done].
  unfold frame_offset_ms, target_fps, ns_per_ms in *.
  rewrite Z.quot_div_nonneg by lia.
  pose proof (Z.div_mod (f * 1000) 30 ltac:(lia)) as Hdm.
  pose proof (Z.mod_pos_bound (f * 1000) 30 ltac:(lia)) as Hmb.
  apply eq_true_iff_eq. rewrite Qle_bool_iff, Z.leb_le.
  unfold Qle, Qplus, Qmult, Qdiv, Qinv, inject_Z. cbn [Qnum Qden].
  simpl. lia.
Qed.

(** X3.  On timestamps that are whole milliseconds the cut of the offset is
    not visible: the script's mapping is the specification's. *)
Theorem get_frame_time_idx_exact_on_ms_grid (T : list Z) (f : Z) :
  non_decreasing T = true -> on_ms_grid T = true ->
  (2 <= length T)%nat -> default 0 (head T) < default 0 (last T) -> 0 <= f ->
  get_frame_time_idx T f = spec_frame_to_index T f.
Proof.
  intros Hs Hg Hlen Hdur Hf.
  unfold spec_frame_to_index. rewrite spec_last_index_le_count by done. cbv zeta.
  set (t0 := default 0 (head T)).
  assert (Ht0 : t0 mod ns_per_ms = 0).
  { subst t0. destruct T as [|t T']; [done|]. simpl in *.
    apply andb_true_iff in Hg as [Hg _]. lia. }
  rewrite (filter_ext_in _ (fun t => t <=? t0 + frame_offset_ms f * ns_per_ms)).
  2:{ intros t Ht. apply exact_target_on_grid; [done| |done].
      unfold on_ms_grid in Hg. rewrite forallb_forall in Hg.
      specialize (Hg t Ht). lia. }
  destruct (searchsorted_right_sorted T (t0 + frame_offset_ms f * ns_per_ms) Hs)
    as (Hr & Hlo & Hhi).
  rewrite (count_le_split _ T _ Hr Hlo Hhi).
  rewrite (get_frame_time_idx_regular T f Hlen) by lia. fold t0. f_equal.
  destruct (Nat.eqb_spec (searchsorted_right T (t0 + frame_offset_ms f * ns_per_ms)) 0);
    lia.
Qed.

(** ** The window *)

Lemma boolean_index_map {A} (p : A -> bool) (l : list A) :
  boolean_index l (map p l) = List.filter p l.
Proof.
  induction l as [|x l IH]; [done|]. simpl. rewrite IH. by destruct (p x).
Qed.

(** C5.  At a valid data index the window computation does not raise; its
    mask has one entry per timestamp, set exactly where
    [T[idx] - w <= T[i] <= T[idx]] ([w] in seconds, both bounds
    inclusive); the selected timestamps are the timestamps in that
    interval, in order, and the selection may be empty. *)
Theorem window_selects_trailing_interval (T : list Z) (idx w : Z) :
  0 <= idx < Z.of_nat (length T) ->
  exists end_time,
    T !! Z.to_nat idx = Some end_time /\
    window T idx w
      = Ok (end_time, window_mask T end_time w,
            List.filter (fun t => (end_time - w * ns_per_s <=? t) && (t <=? end_time)) T) /\
    length (window_mask T end_time w) = length T /\
    (forall i t, T !! i = Some t ->
       (window_mask T end_time w !! i = Some true
        <-> end_time - w * ns_per_s <= t <= end_time)) /\
    (forall t, t ∈ boolean_index T (window_mask T end_time w)
       <-> t ∈ T /\ end_time - w * ns_per_s <= t <= end_time).
Proof.
  intros Hidx.
  destruct (T !! Z.to_nat idx) as [end_time|] eqn:E.
  2:{ apply lookup_ge_None in E. lia. }
  exists end_time. split; [done|].
  assert (Hmask : boolean_index T (window_mask T end_time w)
    = List.filter (fun t => (end_time - w * ns_per_s <=? t) && (t <=? end_time)) T).
  { unfold window_mask. apply boolean_index_map. }
  split.
  { unfold window, py_index.
    destruct (Z.ltb_spec idx 0); [lia|]. destruct (Z.ltb_spec idx 0); [lia|].
    rewrite E. cbn [bind]. by rewrite Hmask. }
  split; [unfold window_mask; by rewrite length_map|].
  split.
  - intros i t Hi. unfold window_mask. rewrite list_lookup_fmap, Hi. simpl.
    split.
    + intros [= H]. apply andb_true_iff in H as [H1 H2]. lia.
    + intros [H1 H2]. f_equal. apply andb_true_iff. split; lia.
  - intros t. rewrite Hmask, list_elem_of_In, filter_In, <- list_elem_of_In.
    rewrite andb_true_iff, !Z.leb_le. tauto.
Qed.

(** Every frame of a loaded, non-empty series can be drawn: [animate] does
    not raise. *)
Lemma get_frame_time_idx_in_range (T : list Z) (f : Z) :
  T <> [] -> 0 <= get_frame_time_idx T f < Z.of_nat (length T).
Proof.
  intros HT. assert (0 < length T)%nat by (destruct T; [done|simpl; lia]).
  unfold get_frame_time_idx. destruct (_ || _); [lia|]. unfold clip. lia.
Qed.

Lemma animate_returns {cell} (fig : figure cell) (frame : Z) :
  time_data (fig_series fig) <> [] ->
  exists frame_lines,
    animate cell fig frame = Ok frame_lines /\
    length frame_lines = num_sensors fig.
Proof.
  intros HT. unfold animate, window, py_index.
  pose proof (get_frame_time_idx_in_range _ frame HT) as Hidx.
  set (idx := get_frame_time_idx (time_data (fig_series fig)) frame) in *.
  destruct (Z.ltb_spec idx 0); [lia|]. destruct (Z.ltb_spec idx 0); [lia|].
  destruct (time_data (fig_series fig) !! Z.to_nat idx) eqn:E.
  2:{ apply lookup_ge_None in E. lia. }
  cbn [bind]. eexists. split; [done|].
  unfold lines. by rewrite length_map, length_seq.
Qed.

(** ** Loading and layout *)

Section Loading.
Variable cell : Type.
Variable to_datetime : cell -> option Z.

Lemma existsb_isnull_false (df : list (stamped cell)) :
  existsb (isnull cell) df = false -> dropna cell df = df.
Proof.
  induction df as [|r df IH]; [done|]. simpl.
  intros H. apply orb_false_iff in H as [Hr Hdf].
  rewrite Hr. simpl. by rewrite IH.
Qed.

Lemma dropna_convert k (rs : list (list cell)) :
  dropna cell (convert_timestamps cell to_datetime k rs)
  = convert_timestamps cell to_datetime k
      (List.filter (fun r => bool_decide (is_Some (r !! k ≫= to_datetime))) rs).
Proof.
  induction rs as [|r rs IH]; [done|].
  cbn [convert_timestamps map dropna List.filter] in *. unfold isnull at 1. cbn [fst].
  destruct (r !! k ≫= to_datetime) as [t|] eqn:E; cbn [negb].
  - rewrite bool_decide_true by eauto. cbn [map]. rewrite E. by f_equal.
  - rewrite bool_decide_false by (by intros [? ?]). done.
Qed.

Lemma omap_fst_convert k (rs : list (list cell)) :
  omap fst (convert_timestamps cell to_datetime k rs)
  = omap (fun r => r !! k ≫= to_datetime) rs.
Proof.
  unfold convert_timestamps.
  induction rs as [|r rs IH]; [done|]. simpl in *.
  destruct (r !! k ≫= to_datetime); simpl; [f_equal|]; exact IH.
Qed.

Lemma omap_fst_dropna (df : list (stamped cell)) :
  omap fst (dropna cell df) = omap fst df.
Proof.
  unfold dropna.
  induction df as [|[[t|] r] df IH]; simpl in *; try done. f_equal; exact IH.
Qed.

Lemma length_omap_fst_dropna (df : list (stamped cell)) :
  length (omap fst (dropna cell df)) = length (dropna cell df).
Proof.
  unfold dropna.
  induction df as [|[[t|] r] df IH]; simpl in *; try done. f_equal; exact IH.
Qed.

Lemma omap_filter_parsed {A B} (f : A -> option B) (l : list A) :
  omap f (List.filter (fun r => bool_decide (is_Some (f r))) l) = omap f l /\
  length (omap f (List.filter (fun r => bool_decide (is_Some (f r))) l))
  = length (List.filter (fun r => bool_decide (is_Some (f r))) l).
Proof.
  induction l as [|x l [IH1 IH2]]; [done|].
  cbn [List.filter]. destruct (f x) as [y|] eqn:E.
  - rewrite bool_decide_true by eauto. simpl. rewrite E. simpl.
    split; f_equal; [exact IH1|exact IH2].
  - rewrite bool_decide_false by (by intros [? ?]). simpl. rewrite E.
    split; [exact IH1|exact IH2].
Qed.

Lemma frame_after_dropna k (rs : list (list cell)) :
  let df1 := convert_timestamps cell to_datetime k rs in
  (if existsb (isnull cell) df1 then dropna cell df1 else df1)
  = convert_timestamps cell to_datetime k
      (List.filter (fun r => bool_decide (is_Some (r !! k ≫= to_datetime))) rs).
Proof.
  intros df1. destruct (existsb (isnull cell) df1) eqn:Hany.
  - apply dropna_convert.
  - rewrite <- dropna_convert. symmetry. by apply existsb_isnull_false.
Qed.

Lemma convert_timestamps_nil k (rs : list (list cell)) :
  is_empty (convert_timestamps cell to_datetime k rs) = is_empty rs.
Proof. by destruct rs. Qed.

Lemma load_with_timestamp_column (df : DataFrame cell) (k : nat) :
  column_position TIMESTAMP_COL_NAME (columns df) = Some k ->
  let parsed := fun r : list cell => r !! k ≫= to_datetime in
  let kept := List.filter (fun r => bool_decide (is_Some (parsed r))) (records df) in
  (List.filter is_sensor_col (columns df) = [] ->
   exists printed, load cell to_datetime (Ok df) = Exited printed) /\
  (records df <> [] -> kept = [] ->
   exists printed, load cell to_datetime (Ok df) = Exited printed) /\
  (forall printed s, load cell to_datetime (Ok df) = Loaded printed s ->
     time_data s = omap parsed (records df) /\
     ride_height_data s = map (select cell (sensor_positions 0 (columns df))) kept /\
     length (time_data s) = length (ride_height_data s) /\
     sensor_cols s = List.filter is_sensor_col (columns df) /\
     sensor_cols s <> []).
Proof.
  intros Hk. unfold load. rewrite Hk. cbv zeta.
  pose proof (frame_after_dropna k (records df)) as Hdf2. cbv zeta in Hdf2.
  rewrite Hdf2. rewrite convert_timestamps_nil.
  set (parsed := fun r : list cell => r !! k ≫= to_datetime) in *.
  set (kept := List.filter _ (records df)) in *.
  set (any_null := existsb (isnull cell)
                     (convert_timestamps cell to_datetime k (records df))) in *.
  destruct (any_null && is_empty kept) eqn:Hcond.
  { split; [intros; by eexists|]. split; [intros; by eexists|]. intros; discriminate. }
  destruct (List.filter is_sensor_col (columns df)) as [|c cs] eqn:Ec; cbn [is_empty].
  { split; [intros; by eexists|]. split; [intros; by eexists|]. intros; discriminate. }
  split; [intros; discriminate|]. split.
  - intros Hne Hnil. exfalso.
    rewrite Hnil in Hcond, Hdf2. cbn [is_empty] in Hcond. rewrite andb_true_r in Hcond.
    rewrite Hcond in Hdf2. destruct (records df); [done|discriminate].
  - intros printed s [= <- <-]. cbn [time_data ride_height_data sensor_cols].
    destruct (omap_filter_parsed parsed (records df)) as [Hall Hlen].
    change (List.filter _ (records df)) with kept in Hall, Hlen.
    rewrite omap_fst_convert. change (omap _ kept) with (omap parsed kept).
    split; [exact Hall|].
    split; [unfold convert_timestamps; by rewrite map_map|].
    split; [|done].
    rewrite Hlen. unfold convert_timestamps. by rewrite !length_map.
Qed.

Lemma load_no_records (df : DataFrame cell) (k : nat) :
  column_position TIMESTAMP_COL_NAME (columns df) = Some k ->
  records df = [] -> List.filter is_sensor_col (columns df) <> [] ->
  load cell to_datetime (Ok df)
  = Loaded []
      {| sensor_cols := List.filter is_sensor_col (columns df);
         ride_height_data := [];
         time_data := [] |}.
Proof.
  intros Hk Hrec Hcols. unfold load. rewrite Hk, Hrec.
  cbn [convert_timestamps map existsb andb].
  by destruct (List.filter is_sensor_col (columns df)).
Qed.

Lemma existsb_isnull_convert k (rs : list (list cell)) :
  existsb (isnull cell) (convert_timestamps cell to_datetime k rs)
  = existsb (fun r => negb (bool_decide (is_Some (r !! k ≫= to_datetime)))) rs.
Proof.
  unfold convert_timestamps. induction rs as [|r rs IH]; [done|].
  cbn [map existsb]. rewrite IH. f_equal. unfold isnull. cbn [fst].
  destruct (r !! k ≫= to_datetime) as [t|].
  - by rewrite bool_decide_true by eauto.
  - by rewrite bool_decide_false by (by intros [? ?]).
Qed.

(** With a channel column and a record that parses, the load succeeds and
    keeps exactly the records that parse. *)
Lemma load_keeps_parsed (df : DataFrame cell) (k : nat) :
  column_position TIMESTAMP_COL_NAME (columns df) = Some k ->
  let parsed := fun r : list cell => r !! k ≫= to_datetime in
  let kept := List.filter (fun r => bool_decide (is_Some (parsed r))) (records df) in
  let some_bad :=
    existsb (fun r => negb (bool_decide (is_Some (parsed r)))) (records df) in
  List.filter is_sensor_col (columns df) <> [] -> kept <> [] ->
  load cell to_datetime (Ok df)
  = Loaded (if some_bad then [WarnNaT] else [])
      {| sensor_cols := List.filter is_sensor_col (columns df);
         ride_height_data := map (select cell (sensor_positions 0 (columns df))) kept;
         time_data := omap parsed (records df) |}.
Proof.
  intros Hk. cbv zeta. intros Hcols Hkept. unfold load. rewrite Hk. cbv zeta.
  pose proof (frame_after_dropna k (records df)) as Hdf2. cbv zeta in Hdf2.
  rewrite Hdf2, convert_timestamps_nil, existsb_isnull_convert.
  set (parsed := fun r : list cell => r !! k ≫= to_datetime) in *.
  set (kept := List.filter (fun r => bool_decide (is_Some (parsed r))) (records df)) in *.
  change (List.filter (fun r : list cell => bool_decide (is_Some (r !! k ≫= to_datetime)))
            (records df)) with kept.
  assert (He : is_empty kept = false) by (by destruct kept).
  rewrite He, andb_false_r.
  destruct (List.filter is_sensor_col (columns df)) as [|c cs] eqn:Ec; [done|].
  cbn [is_empty]. f_equal. f_equal.
  - unfold convert_timestamps. by rewrite map_map.
  - rewrite omap_fst_convert.
    apply (omap_filter_parsed parsed (records df)).
Qed.

(** When there are records and none of them parses, the load warns and
    exits, whatever the columns. *)
Lemma load_nothing_parsed (df : DataFrame cell) (k : nat) :
  column_position TIMESTAMP_COL_NAME (columns df) = Some k ->
  records df <> [] ->
  List.filter (fun r => bool_decide (is_Some (r !! k ≫= to_datetime))) (records df) = [] ->
  load cell to_datetime (Ok df) = Exited [WarnNaT; ErrNoValidTime].
Proof.
  intros Hk Hrec Hkept. unfold load. rewrite Hk. cbv zeta.
  pose proof (frame_after_dropna k (records df)) as Hdf2. cbv zeta in Hdf2.
  rewrite Hdf2, convert_timestamps_nil, existsb_isnull_convert, Hkept.
  cbn [convert_timestamps map is_empty]. rewrite andb_true_r.
  assert (Hbad : existsb (fun r => negb (bool_decide (is_Some (r !! k ≫= to_datetime))))
                   (records df) = true).
  { destruct (records df) as [|r rs]; [done|]. cbn [List.filter existsb] in *.
    destruct (bool_decide (is_Some (r !! k ≫= to_datetime))); [discriminate|done]. }
  by rewrite Hbad.
Qed.

(** C9, as amended.  Without a timestamp column the load exits.  With the
    timestamp column at position [k]: the load exits when no column name
    matches the channel convention, and it warns and exits when there are
    records but none of them has a timestamp that parses.  With a channel
    column and at least one record that parses, the load succeeds: it
    warns exactly when some record does not parse, and the series holds,
    in order, the timestamps that parse and the channel values of exactly
    those records, so the two have the same length.  A log without any
    record, with a channel column, is loaded as an empty series.  Whatever
    is loaded has these properties and at least one channel. *)
Theorem load_drops_unparseable_records (df : DataFrame cell) :
  match column_position TIMESTAMP_COL_NAME (columns df) with
  | None => load cell to_datetime (Ok df) = Exited [ErrLoading KeyError]
  | Some k =>
      let parsed := fun r : list cell => r !! k ≫= to_datetime in
      let kept :=
        List.filter (fun r => bool_decide (is_Some (parsed r))) (records df) in
      let some_bad :=
        existsb (fun r => negb (bool_decide (is_Some (parsed r)))) (records df) in
      (List.filter is_sensor_col (columns df) = [] ->
       exists printed, load cell to_datetime (Ok df) = Exited printed) /\
      (records df <> [] -> kept = [] ->
       load cell to_datetime (Ok df) = Exited [WarnNaT; ErrNoValidTime]) /\
      (List.filter is_sensor_col (columns df) <> [] -> kept <> [] ->
       load cell to_datetime (Ok df)
       = Loaded (if some_bad then [WarnNaT] else [])
           {| sensor_cols := List.filter is_sensor_col (columns df);
              ride_height_data :=
                map (select cell (sensor_positions 0 (columns df))) kept;
              time_data := omap parsed (records df) |}) /\
      length (omap parsed (records df)) = length kept /\
      (records df = [] -> List.filter is_sensor_col (columns df) <> [] ->
       load cell to_datetime (Ok df)
       = Loaded []
           {| sensor_cols := List.filter is_sensor_col (columns df);
              ride_height_data := [];
              time_data := [] |}) /\
      (forall printed s, load cell to_datetime (Ok df) = Loaded printed s ->
         time_data s = omap parsed (records df) /\
         ride_height_data s
         = map (select cell (sensor_positions 0 (columns df))) kept /\
         length (time_data s) = length (ride_height_data s) /\
         sensor_cols s = List.filter is_sensor_col (columns df) /\
         sensor_cols s <> [])
  end.
Proof.
  destruct (column_position TIMESTAMP_COL_NAME (columns df)) as [k|] eqn:Hk.
  - destruct (load_with_timestamp_column df k Hk) as (H1 & _ & H3).
    cbv zeta. split; [exact H1|].
    split; [by apply load_nothing_parsed|].
    split; [by apply load_keeps_parsed|].
    split.
    { destruct (omap_filter_parsed (fun r : list cell => r !! k ≫= to_datetime)
                  (records df)) as [Hall Hlen].
      by rewrite <- Hall at 1. }
    split; [by apply (load_no_records df k)|exact H3].
  - unfold load. by rewrite Hk.
Qed.

(** C10.  When more than four columns match the channel convention, the
    layout keeps the first four matched columns in file order, cuts every
    row of the value matrix to its first four values, and draws four
    lines; nothing is printed about the channels left out. *)
Theorem layout_keeps_first_four (df : DataFrame cell) printed (s : series cell) :
  load cell to_datetime (Ok df) = Loaded printed s ->
  (4 < length (List.filter is_sensor_col (columns df)))%nat ->
  exists fig,
    layout cell s = Ready fig /\
    sensor_cols (fig_series fig) = take 4 (List.filter is_sensor_col (columns df)) /\
    ride_height_data (fig_series fig) = map (take 4) (ride_height_data s) /\
    time_data (fig_series fig) = time_data s /\
    num_sensors fig = 4%nat /\
    lines cell fig = [0; 1; 2; 3]%nat.
Proof.
  intros Hload Hn.
  assert (Hcols : sensor_cols s = List.filter is_sensor_col (columns df)).
  { unfold load in Hload.
    destruct (column_position _ _); [|discriminate].
    destruct (_ && _); [discriminate|].
    destruct (is_empty _); [discriminate|].
    by injection Hload as _ <-. }
  rewrite <- Hcols in *. unfold layout.
  destruct (Nat.eqb_spec (length (sensor_cols s)) 0); [lia|].
  destruct (Nat.ltb_spec (length (sensor_cols s)) 4); [lia|].
  destruct (Nat.ltb_spec 4 (length (sensor_cols s))); [|lia].
  eexists. split; [done|]. by cbn.
Qed.

(** Whatever the number of matched columns, at most four are drawn. *)
Lemma layout_at_most_four (s : series cell) fig :
  layout cell s = Ready fig ->
  (num_sensors fig <= 4)%nat /\
  num_sensors fig = length (sensor_cols (fig_series fig)) /\
  sensor_cols (fig_series fig) = take 4 (sensor_cols s).
Proof.
  unfold layout.
  destruct (Nat.eqb_spec (length (sensor_cols s)) 0); [done|].
  destruct (Nat.ltb_spec (length (sensor_cols s)) 4).
  { intros [= <-]. cbn [num_sensors fig_series sensor_cols].
    rewrite take_ge by lia. repeat split; lia. }
  destruct (Nat.ltb_spec 4 (length (sensor_cols s))); intros [= <-];
    cbn [num_sensors fig_series sensor_cols].
  - rewrite length_take. repeat split; lia.
  - rewrite take_ge by lia. repeat split; lia.
Qed.

End Loading.

(** ** Instances *)

Lemma get_frame_time_idx_monotone_witness :
  get_frame_time_idx tenth_second_series 2 <= get_frame_time_idx tenth_second_series 4.
Proof. apply get_frame_time_idx_monotone. lia. Defined.

Lemma get_frame_time_idx_last_le_witness :
  let T := tenth_second_series in
  let target_time := default 0 (head T) + (4 * 1000) ÷ target_fps * ns_per_ms in
  let i := Z.to_nat (get_frame_time_idx T 4) in
  0 <= get_frame_time_idx T 4 <= Z.of_nat (length T) - 1 /\
  T !!! i <= target_time /\
  forall j, (i < j < length T)%nat -> target_time < T !!! j.
Proof.
  apply (proj2 (get_frame_time_idx_last_le tenth_second_series 4));
    [reflexivity | simpl; lia | simpl; lia | lia].
Defined.

Lemma get_frame_time_idx_exact_on_ms_grid_witness :
  get_frame_time_idx tenth_second_series 4 = spec_frame_to_index tenth_second_series 4.
Proof.
  apply get_frame_time_idx_exact_on_ms_grid;
    [reflexivity | reflexivity | simpl; lia | simpl; lia | lia].
Defined.

(** C3, counterexample.  With timestamps 0 and 33.2 ms and frame 1 the
    exact target, 1000/30 = 33.33 ms, lies after the second timestamp,
    which the specification's mapping therefore selects; the script cuts
    the offset to 33 ms and stays on index 0. *)
Lemma frame_to_index_exact_counterexample :
  non_decreasing sub_ms_series = true /\
  length sub_ms_series = 2%nat /\
  default 0 (head sub_ms_series) < default 0 (last sub_ms_series) /\
  get_frame_time_idx sub_ms_series 1 = 0 /\
  spec_frame_to_index sub_ms_series 1 = 1.
Proof. vm_compute. repeat split; intros; discriminate. Qed.

Lemma window_selects_trailing_interval_witness :
  exists end_time,
    gap_series !! Z.to_nat 2 = Some end_time /\
    window gap_series 2 3
      = Ok (end_time, window_mask gap_series end_time 3,
            List.filter (fun t => (end_time - 3 * ns_per_s <=? t) && (t <=? end_time))
              gap_series) /\
    length (window_mask gap_series end_time 3) = length gap_series /\
    (forall i t, gap_series !! i = Some t ->
       (window_mask gap_series end_time 3 !! i = Some true
        <-> end_time - 3 * ns_per_s <= t <= end_time)) /\
    (forall t, t ∈ boolean_index gap_series (window_mask gap_series end_time 3)
       <-> t ∈ gap_series /\ end_time - 3 * ns_per_s <= t <= end_time).
Proof. apply (window_selects_trailing_interval gap_series 2 3). simpl. lia. Defined.

(** C9, counterexample.  A log that has its header and no record is loaded
    as an empty series, without an exit. *)
Lemma load_header_only_counterexample :
  load string toy_to_datetime (Ok header_only)
  = Loaded []
      {| sensor_cols := ["Sensor 1 (mm)"]; ride_height_data := []; time_data := [] |}.
Proof. vm_compute. reflexivity. Qed.

(** C9, instance.  The second record of [five_channels] has a timestamp
    that does not parse: the load warns, drops that record with all its
    values and keeps the other two. *)
Lemma load_drops_unparseable_records_witness :
  load string toy_to_datetime (Ok five_channels)
  = Loaded [WarnNaT]
      {| sensor_cols := ["A (mm)"; "B (mm)"; "C (mm)"; "D (mm)"; "E (mm)"];
         ride_height_data := [["1"; "2"; "3"; "4"; "5"]; ["11"; "12"; "13"; "14"; "15"]];
         time_data := [1704103200000000000; 1704103200100000000]%Z |}.
Proof.
  pose proof (load_drops_unparseable_records string toy_to_datetime five_channels) as H.
  hnf in H. destruct H as (_ & _ & H & _).
  apply H; intros E; vm_compute in E; discriminate.
Defined.

Lemma layout_keeps_first_four_witness :
  exists fig,
    layout string five_channels_series = Ready fig /\
    sensor_cols (fig_series fig)
    = take 4 (List.filter is_sensor_col (columns five_channels)) /\
    ride_height_data (fig_series fig)
    = map (take 4) (ride_height_data five_channels_series) /\
    time_data (fig_series fig) = time_data five_channels_series /\
    num_sensors fig = 4%nat /\
    lines string fig = [0; 1; 2; 3]%nat.
Proof.
  apply (layout_keeps_first_four string toy_to_datetime five_channels [WarnNaT]);
    [vm_compute; reflexivity | vm_compute; lia].
Defined.

End PlaybackFacts.

(** * Properties of modviz5.py *)
Module LiveFacts.
Import Live Samples.


(** ** The reader *)

Lemma read_sensor_data_returns w r ins cfg :
  exists v, read_sensor_data w r ins cfg = Ok v.
Proof.
  unfold read_sensor_data, try_except.
  destruct (bind _ _); eauto.
Qed.

Lemma read_sensor_data_failure w r ins cfg e :
  read_registers w r ins (REGISTER_ADDRESS cfg) (NUMBER_OF_REGISTERS cfg)
    (FUNCTION_CODE cfg) = Raise e ->
  read_sensor_data w r ins cfg = Ok None.
Proof. intros H. unfold read_sensor_data. by rewrite H. Qed.

Lemma read_all_complete w r items :
  exists values,
    read_all w r items = Ok values /\
    length values = length items /\
    forall i it, items !! i = Some it ->
      values !! i = Some
        (match read_sensor_data w r (item_instrument it) (item_config it) with
         | Ok v => v
         | Raise _ => None
         end).
Proof.
  induction items as [|it items (values & Hv & Hlen & Hnth)].
  - exists []. by repeat split.
  - destruct (read_sensor_data_returns w r (item_instrument it) (item_config it))
      as [v Hr].
    exists (v :: values). cbn [read_all]. rewrite Hr, Hv. cbn [bind].
    split; [done|]. split; [simpl; lia|].
    intros [|i] it' Hi; simpl in Hi.
    + injection Hi as <-. by rewrite Hr.
    + simpl. by apply Hnth.
Qed.

(** ** The writer *)

Lemma write_to_csv_nothing flt f header :
  write_to_csv flt [] f header = (Ok tt, f).
Proof. done. Qed.

Lemma write_to_csv_returns flt rows f header f' :
  rows <> [] ->
  write_to_csv flt rows f header = (Ok tt, f') ->
  f' = Some (with_header f header ++ rows).
Proof.
  intros Hne. unfold write_to_csv, open_for_reading.
  destruct rows as [|r0 rows]; [done|]. cbn [is_empty].
  destruct flt, f as [old|]; cbn; try discriminate;
    try (intros [= <-]; by rewrite ?app_nil_r).
  - destruct (_ <=? _)%nat; [discriminate|]. by intros [= <-].
  - destruct n; [discriminate|].
    destruct (_ <=? _)%nat; [discriminate|]. by intros [= <-].
Qed.

Lemma write_to_csv_no_fault rows f header :
  rows <> [] ->
  write_to_csv NoFault rows f header = (Ok tt, Some (with_header f header ++ rows)).
Proof.
  intros Hne. unfold write_to_csv, open_for_reading.
  destruct rows as [|r0 rows]; [done|]. by destruct f.
Qed.

Lemma write_to_csv_raises flt rows f header e f' :
  write_to_csv flt rows f header = (Raise e, f') ->
  rows <> [] /\ flt <> NoFault.
Proof.
  unfold write_to_csv, open_for_reading.
  destruct rows as [|r0 rows]; [discriminate|]. cbn [is_empty].
  destruct flt, f; cbn; try discriminate; done.
Qed.


(** ** Set-up *)

Lemma rounds_executed_app tr tr' :
  rounds_executed (tr ++ tr') = (rounds_executed tr + rounds_executed tr')%nat.
Proof. unfold rounds_executed. by rewrite List.filter_app, length_app. Qed.


Lemma rounds_executed_setup (made : list (nat * setting)) (m : message) :
  rounds_executed (map (fun a => SerialSet a.1 a.2) made ++ [Printed m]) = 0%nat.
Proof.
  unfold rounds_executed. induction made as [|a made IH]; [done|]. exact IH.
Qed.

Lemma setup_one_keeps w pos cfg st :
  let st' := setup_one w pos cfg st in
  readings_buffer st' = readings_buffer st /\ disk st' = disk st /\
  _running st' = _running st /\ csv_header st' = csv_header st /\
  csv_filename st' = csv_filename st /\
  rounds_executed (trace st') = rounds_executed (trace st) /\
  map item_config (instruments st')
  = map item_config (instruments st) ++ configured w pos [cfg].
Proof.
  unfold setup_one, setup_minimalmodbus_instrument. cbn [configured].
  unfold setup_raises.
  destruct (open_port w pos cfg) as [h|e];
    [destruct (settings_fault w pos cfg) as [[n e]|]|];
    cbn [readings_buffer disk _running csv_header csv_filename trace instruments
         emit set_instruments set_open_ports fmap option_fmap option_map snd];
    rewrite rounds_executed_app, rounds_executed_setup, ?map_app, ?app_nil_r;
    cbn [map item_config]; repeat split; lia.
Qed.

Lemma setup_from_keeps w cfgs : forall pos st,
  let st' := setup_from w pos cfgs st in
  readings_buffer st' = readings_buffer st /\ disk st' = disk st /\
  _running st' = _running st /\ csv_header st' = csv_header st /\
  csv_filename st' = csv_filename st /\
  rounds_executed (trace st') = rounds_executed (trace st) /\
  map item_config (instruments st')
  = map item_config (instruments st) ++ configured w pos cfgs.
Proof.
  induction cfgs as [|cfg cfgs IH]; intros pos st; cbn [setup_from configured].
  - rewrite app_nil_r. by repeat split.
  - destruct (IH (S pos) (setup_one w pos cfg st)) as (H1 & H2 & H3 & H4 & H5 & H6 & H7).
    destruct (setup_one_keeps w pos cfg st) as (K1 & K2 & K3 & K4 & K5 & K6 & K7).
    cbv zeta. rewrite H1, H2, H3, H4, H5, H6, H7, K1, K2, K3, K4, K5, K6, K7.
    repeat split. rewrite <- app_assoc. f_equal. cbn [configured].
    by destruct (setup_raises w pos cfg).
Qed.

(** The instruments of a fresh reader after the set-up are the
    configurations whose set-up succeeded, in the order of the list. *)
Lemma setup_instruments_configured w cfgs fname header ports d :
  map item_config
    (instruments (setup_instruments w (SensorReader cfgs fname header ports d)))
  = configured w 0 cfgs.
Proof.
  by destruct (setup_from_keeps w cfgs 0 (SensorReader cfgs fname header ports d))
    as (_ & _ & _ & _ & _ & _ & ?).
Qed.

(** A set-up that raises adds no instrument; it leaves its port open when
    the exception came after [Instrument(...)] had opened it. *)
Lemma setup_one_fails w pos cfg st e :
  setup_raises w pos cfg = Some e ->
  instruments (setup_one w pos cfg st) = instruments st /\
  open_ports st ⊆ open_ports (setup_one w pos cfg st) /\
  (forall e', open_port w pos cfg = Raise e' ->
     open_ports (setup_one w pos cfg st) = open_ports st).
Proof.
  unfold setup_raises, setup_one, setup_minimalmodbus_instrument.
  destruct (open_port w pos cfg) as [h|e0].
  - destruct (settings_fault w pos cfg) as [[n e1]|]; [|discriminate].
    intros _. cbn [instruments open_ports emit set_open_ports].
    split; [done|]. split; [apply union_subseteq_r|]. intros; discriminate.
  - intros _. cbn [instruments open_ports emit set_open_ports]. by repeat split.
Qed.

Lemma setup_from_all_fail w cfgs : forall pos st,
  (forall i cfg, cfgs !! i = Some cfg ->
     exists e, setup_raises w (pos + i) cfg = Some e) ->
  instruments (setup_from w pos cfgs st) = instruments st /\
  open_ports st ⊆ open_ports (setup_from w pos cfgs st) /\
  ((forall i cfg, cfgs !! i = Some cfg ->
      exists e, open_port w (pos + i) cfg = Raise e) ->
   open_ports (setup_from w pos cfgs st) = open_ports st).
Proof.
  induction cfgs as [|cfg cfgs IH]; intros pos st Hfail; cbn [setup_from]; [done|].
  destruct (Hfail 0%nat cfg eq_refl) as [e He]. rewrite Nat.add_0_r in He.
  destruct (setup_one_fails w pos cfg st e He) as (K1 & K2 & K3).
  destruct (IH (S pos) (setup_one w pos cfg st)) as (H1 & H2 & H3).
  { intros i c Hi. specialize (Hfail (S i) c Hi).
    by replace (S pos + i)%nat with (pos + S i)%nat by lia. }
  split; [by rewrite H1, K1|]. split; [by etrans|].
  intros Hopen. rewrite H3.
  - destruct (Hopen 0%nat cfg eq_refl) as [e' He']. rewrite Nat.add_0_r in He'.
    by apply (K3 e').
  - intros i c Hi. specialize (Hopen (S i) c Hi).
    by replace (S pos + i)%nat with (pos + S i)%nat by lia.
Qed.

(** ** One round *)

(** What a round does, by cases on the flush. *)
Lemma sample_round_cases w r start st :
  exists values,
    read_all w r (instruments st) = Ok values /\
    let buffer := readings_buffer st ++ [round_row w r values] in
    let st1 := set_readings_buffer buffer (emit [Emitted values] st) in
    if flush_due (clock_csv w r) start then
      match write_to_csv (io_fault w r) buffer (disk st) (csv_header st) with
      | (Raise e, d) => sample_round w r start st = (Raised e (set_disk d st1), start)
      | (Ok _, d) =>
          sample_round w r start st
          = (Returned
               (set_readings_buffer []
                  (emit [Printed (MsgAppended (length buffer))]
                     (emit [FileWritten d] (set_disk d st1)))),
             clock_csv w r)
      end
    else sample_round w r start st = (Returned st1, start).
Proof.
  destruct (read_all_complete w r (instruments st)) as (values & Hv & _).
  exists values. split; [done|]. cbv zeta.
  unfold sample_round. rewrite Hv.
  cbn [readings_buffer disk csv_header emit set_readings_buffer set_disk].
  fold (round_row w r values).
  destruct (flush_due _ _); [|done].
  destruct (is_empty _) eqn:E.
  { by destruct (readings_buffer st). }
  by destruct (write_to_csv _ _ _ _) as [[[]|e] d].
Qed.

(** C2.  A write that fails raises, and nothing in [run] catches the
    exception.  When the write of a round raises, the round ends with that
    exception before the buffer is reset, and so does the loop: the buffer
    holds every row it held and the row of the round, in order.  When the
    write of the cleanup raises, the cleanup ends with that exception and
    the buffer is as it was.  The log is what the failed write left; the
    rows stay in the buffer of the object, and [run], which has ended, does
    not write them.  A call with no data returns normally and leaves the
    file alone, so the two outcomes differ for the caller. *)
Theorem failed_flush_keeps_buffer (w : world) (r : nat) (start : float)
    (st : state) (e : exn) (d : file) :
  let row := round_row w r (values_at w r (instruments st)) in
  (flush_due (clock_csv w r) start = true ->
   write_to_csv (io_fault w r) (readings_buffer st ++ [row]) (disk st) (csv_header st)
   = (Raise e, d) ->
   exists st',
     sample_round w r start st = (Raised e st', start) /\
     readings_buffer st' = readings_buffer st ++ [row] /\
     disk st' = d /\
     (forall until_stop, _running st = true ->
        sampling_loop w (S until_stop) r start st = Raised e st')) /\
  (write_to_csv (io_fault w r) (readings_buffer st) (disk st) (csv_header st)
   = (Raise e, d) ->
   exists st',
     cleanup w r st = Raised e st' /\
     readings_buffer st' = readings_buffer st /\
     readings_buffer st' <> [] /\
     disk st' = d) /\
  write_to_csv (io_fault w r) [] (disk st) (csv_header st) = (Ok tt, disk st).
Proof.
  cbv zeta. split; [|split; [|done]].
  - intros Hdue Hw.
    destruct (sample_round_cases w r start st) as (values & Hv & Hcases).
    cbv zeta in Hcases. unfold values_at in Hw. rewrite Hv in Hw.
    rewrite Hdue, Hw in Hcases.
    eexists. split; [exact Hcases|].
    cbn [readings_buffer disk set_disk set_readings_buffer emit].
    unfold values_at. rewrite Hv. split; [done|]. split; [done|].
    intros until_stop Hrun. cbn [sampling_loop]. by rewrite Hrun, Hcases.
  - intros Hw. unfold cleanup. cbn [readings_buffer emit disk csv_header].
    destruct (readings_buffer st) as [|r0 rows] eqn:Hb.
    { by rewrite write_to_csv_nothing in Hw. }
    cbn [is_empty]. rewrite Hw. eexists. split; [done|].
    cbn [readings_buffer disk set_disk emit]. by rewrite Hb.
Qed.

(** ** Cleanup *)

Lemma close_ports_buffer items : forall st,
  readings_buffer (close_ports items st) = readings_buffer st.
Proof.
  induction items as [|it items IH]; intros st; [done|]. cbn [close_ports].
  case_bool_decide; by rewrite IH.
Qed.

Lemma close_ports_disk items : forall st,
  disk (close_ports items st) = disk st.
Proof.
  induction items as [|it items IH]; intros st; [done|]. cbn [close_ports].
  case_bool_decide; by rewrite IH.
Qed.

Lemma close_ports_trace items : forall st,
  exists closes,
    trace (close_ports items st) = trace st ++ closes /\
    forallb is_close_event closes = true.
Proof.
  induction items as [|it items IH]; intros st.
  - exists []. by rewrite app_nil_r.
  - cbn [close_ports]. case_bool_decide.
    + destruct (IH (emit [PortClosed (serial (item_instrument it));
                          Printed (MsgClosedPort (NAME (item_config it)))]
                      (set_open_ports (open_ports st ∖ {[serial (item_instrument it)]}) st)))
        as (closes & Ht & Hc).
      eexists (_ :: _ :: closes). rewrite Ht. cbn [trace emit set_open_ports].
      rewrite <- app_assoc. split; [done|]. done.
    + apply IH.
Qed.



(** The two ways [cleanup] ends. *)
Lemma cleanup_cases w k st :
  (exists e, cleanup w k st
             = Raised e (set_disk
                           (write_to_csv (io_fault w k) (readings_buffer st) (disk st)
                              (csv_header st)).2
                           (emit [Printed MsgStopping] st))) \/
  cleanup w k st
  = Returned
      (close_ports (instruments st)
         (if is_empty (readings_buffer st) then emit [Printed MsgStopping] st
          else
            let d := Some (with_header (disk st) (csv_header st) ++ readings_buffer st) in
            emit [Printed (MsgAppendedRemaining (length (readings_buffer st)))]
              (emit [FileWritten d] (set_disk d (emit [Printed MsgStopping] st))))).
Proof.
  unfold cleanup. cbn [readings_buffer disk csv_header emit].
  destruct (is_empty (readings_buffer st)) eqn:Hb; [by right|].
  destruct (write_to_csv _ _ _ _) as [[[]|e] d] eqn:Hw; cbn [snd].
  - right. apply write_to_csv_returns in Hw as ->; [done|].
    by destruct (readings_buffer st).
  - left. by exists e.
Qed.

(** X15.  The flush of a round, when it returns, leaves the buffer empty and the
    log extended by the buffered rows, after the header if the file did not
    exist and after the old content otherwise; without a flush the row is
    buffered and the log untouched.  The cleanup extends the log in the
    same way and leaves the buffer as it was. *)
Lemma periodic_flush_empties_buffer (w : world) (r : nat) (start : float)
    (st : state) :
  (forall st' start',
     sample_round w r start st = (Returned st', start') ->
     exists values,
       read_all w r (instruments st) = Ok values /\
       if flush_due (clock_csv w r) start
       then readings_buffer st' = [] /\
            disk st' = Some (with_header (disk st) (csv_header st)
                             ++ readings_buffer st ++ [round_row w r values])
       else readings_buffer st' = readings_buffer st ++ [round_row w r values] /\
            disk st' = disk st) /\
  (forall st',
     cleanup w r st = Returned st' ->
     readings_buffer st' = readings_buffer st /\
     disk st' = if is_empty (readings_buffer st) then disk st
                else Some (with_header (disk st) (csv_header st) ++ readings_buffer st)).
Proof.
  split.
  - intros st' start' H.
    destruct (sample_round_cases w r start st) as (values & Hv & Hcases).
    exists values. split; [done|]. cbv zeta in Hcases.
    destruct (flush_due _ _).
    + destruct (write_to_csv _ _ _ _) as [[[]|e'] d] eqn:Hw;
        rewrite Hcases in H; [|discriminate].
      injection H as <- <-. cbn [readings_buffer disk set_disk set_readings_buffer emit].
      split; [done|].
      apply write_to_csv_returns in Hw; [done|]. by destruct (readings_buffer st).
    + rewrite Hcases in H. by injection H as <- <-.
  - intros st' H. destruct (cleanup_cases w r st) as [[e He]|Hc]; [congruence|].
    rewrite Hc in H. injection H as <-.
    rewrite close_ports_buffer, close_ports_disk.
    by destruct (is_empty (readings_buffer st)).
Qed.

(** ** Leaving the loop *)

Lemma sample_round_keeps w r start st st' start' :
  sample_round w r start st = (Returned st', start') ->
  _running st' = _running st /\ instruments st' = instruments st /\
  csv_header st' = csv_header st /\ open_ports st' = open_ports st /\
  rounds_executed (trace st') = S (rounds_executed (trace st)).
Proof.
  intros H. destruct (sample_round_cases w r start st) as (values & _ & Hcases).
  cbv zeta in Hcases.
  destruct (flush_due _ _).
  - destruct (write_to_csv _ _ _ _) as [[[]|e'] d]; rewrite Hcases in H; [|discriminate].
    injection H as <- <-.
    cbn [_running instruments csv_header open_ports trace
         set_readings_buffer emit set_disk].
    rewrite !rounds_executed_app. cbn. repeat split; lia.
  - rewrite Hcases in H. injection H as <- <-.
    cbn [_running instruments csv_header open_ports trace
         set_readings_buffer emit set_disk].
    rewrite !rounds_executed_app. cbn. repeat split; lia.
Qed.

Lemma sampling_loop_returned w k : forall r start st st1,
  _running st = true ->
  sampling_loop w k r start st = Returned st1 ->
  _running st1 = false /\ instruments st1 = instruments st /\
  csv_header st1 = csv_header st /\ open_ports st1 = open_ports st /\
  rounds_executed (trace st1) = (rounds_executed (trace st) + k)%nat.
Proof.
  induction k as [|k IH]; intros r start st st1 Hrun H; cbn [sampling_loop] in H.
  - injection H as <-. cbn [stop set_running _running instruments csv_header
                            open_ports trace]. repeat split; lia.
  - rewrite Hrun in H.
    destruct (sample_round w r start st) as [[st'|e st'] start'] eqn:Hr; [|discriminate].
    apply sample_round_keeps in Hr as (Hr1 & Hr2 & Hr3 & Hr4 & Hr5).
    apply IH in H as (H1 & H2 & H3 & H4 & H5); [|congruence].
    repeat split; try congruence. lia.
Qed.


(** ** Start and stop *)

(** C1, as amended.  When no configuration can be set up, whether the
    exception comes from the opening of the port or from the settings
    after it, [run] reports it, clears the flag and returns before the
    loop: no round is carried out and nothing is buffered or written.  The
    ports open before stay open; when every set-up fails at the opening,
    no other port is open afterwards.  The process is not ended by this;
    when the window is closed its exit status is 0. *)
Theorem run_without_instruments (w : world) (cfgs : list sensor_config)
    (fname : string) (header : row) (ports : gset nat) (d : file) :
  (forall pos cfg, cfgs !! pos = Some cfg ->
     exists e, setup_raises w pos cfg = Some e) ->
  exists st',
    run w (SensorReader cfgs fname header ports d) = Returned st' /\
    rounds_executed (trace st') = 0%nat /\
    last (trace st') = Some (Printed MsgNoSensors) /\
    _running st' = false /\
    readings_buffer st' = [] /\
    disk st' = d /\
    ports ⊆ open_ports st' /\
    ((forall pos cfg, cfgs !! pos = Some cfg ->
        exists e, open_port w pos cfg = Raise e) ->
     open_ports st' = ports) /\
    exit_status (run w (SensorReader cfgs fname header ports d)) = Some 0%Z.
Proof.
  intros Hfail. unfold run, setup_instruments.
  set (st0 := SensorReader cfgs fname header ports d).
  destruct (setup_from_all_fail w cfgs 0 st0 Hfail) as (Hi & Hsub & Hp).
  destruct (setup_from_keeps w cfgs 0 st0) as (H1 & H2 & H3 & H4 & H5 & H6 & H7).
  change (sensors_config st0) with cfgs.
  rewrite Hi. cbn [instruments st0 SensorReader is_empty].
  eexists. split; [done|].
  cbn [trace emit set_running _running readings_buffer disk open_ports exit_status].
  rewrite rounds_executed_app, H6, H1, H2, last_snoc.
  repeat split; try done; intros Hopen; by rewrite Hp.
Qed.



(** ** The log of a run without I/O faults *)

Lemma sample_round_log w r start st rows :
  io_fault w r = NoFault ->
  log_inv st rows ->
  exists st' start',
    sample_round w r start st = (Returned st', start') /\
    log_inv st' (rows ++ [round_row w r (values_at w r (instruments st))]).
Proof.
  intros Hio Hinv.
  destruct (sample_round_cases w r start st) as (values & Hv & Hcases).
  cbv zeta in Hcases. unfold values_at. rewrite Hv.
  destruct (flush_due _ _).
  - rewrite Hio, write_to_csv_no_fault in Hcases by (by destruct (readings_buffer st)).
    do 2 eexists. split; [exact Hcases|].
    unfold log_inv in *.
    cbn [disk csv_header readings_buffer set_readings_buffer emit set_disk].
    destruct (disk st) as [content|]; cbn [with_header].
    + destruct Hinv as (flushed & -> & Hne & <-).
      exists (flushed ++ readings_buffer st ++ [round_row w r values]).
      split; [reflexivity|]. split; [by destruct flushed|].
      by rewrite app_nil_r, app_assoc.
    + subst rows. exists (readings_buffer st ++ [round_row w r values]).
      split; [reflexivity|]. split; [by destruct (readings_buffer st)|].
      by rewrite app_nil_r.
  - do 2 eexists. split; [exact Hcases|].
    unfold log_inv in *.
    cbn [disk csv_header readings_buffer set_readings_buffer emit].
    destruct (disk st) as [content|].
    + destruct Hinv as (flushed & -> & Hne & <-).
      exists flushed. split; [reflexivity|]. split; [done|]. by rewrite app_assoc.
    + by subst rows.
Qed.

Lemma sampling_loop_log w k : forall r start st rows,
  (forall i, io_fault w i = NoFault) ->
  _running st = true ->
  log_inv st rows ->
  exists st1,
    sampling_loop w k r start st = Returned st1 /\
    log_inv st1 (rows ++ rows_of w (instruments st) r k).
Proof.
  induction k as [|k IH]; intros r start st rows Hio Hrun Hinv; cbn [sampling_loop].
  - eexists. split; [done|]. unfold rows_of. cbn [seq map]. by rewrite app_nil_r.
  - rewrite Hrun.
    destruct (sample_round_log w r start st rows (Hio r) Hinv) as (st' & start' & Hr & Hinv').
    rewrite Hr.
    apply sample_round_keeps in Hr as (Hr1 & Hr2 & _).
    destruct (IH (S r) start' st' _ Hio ltac:(congruence) Hinv') as (st1 & Hl & Hinv1).
    exists st1. split; [done|].
    unfold rows_of in *. cbn [seq map]. rewrite Hr2 in Hinv1.
    by rewrite <- app_assoc in Hinv1.
Qed.

(** A run that meets no I/O fault and starts without a log file returns
    and leaves the header followed by one row per round, in the order of
    the rounds; without any round no file is created. *)
Theorem run_log_complete (w : world) (cfgs : list sensor_config)
    (fname : string) (header : row) (ports : gset nat) :
  let st0 := setup_instruments w (SensorReader cfgs fname header ports None) in
  (forall i, io_fault w i = NoFault) ->
  instruments st0 <> [] ->
  exists st2,
    run w (SensorReader cfgs fname header ports None) = Returned st2 /\
    disk st2 = match rows_of w (instruments st0) 0 (rounds_before_stop w) with
               | [] => None
               | rows => Some (header :: rows)
               end.
Proof.
  intros st0 Hio Hins.
  pose proof (setup_from_keeps w cfgs 0 (SensorReader cfgs fname header ports None))
    as Hk. cbv zeta in Hk.
  change (setup_from w 0 cfgs (SensorReader cfgs fname header ports None)) with st0 in Hk.
  destruct Hk as (H1 & H2 & H3 & H4 & H5 & H6 & H7).
  cbn [SensorReader readings_buffer disk _running csv_header] in H1, H2, H3, H4.
  set (st := emit [Printed (MsgThreadStarted (csv_filename st0))] st0).
  destruct (sampling_loop_log w (rounds_before_stop w) 0 (clock_start w) st [] Hio)
    as (st1 & Hloop & Hinv); [done| |].
  { unfold log_inv. subst st. cbn [disk emit readings_buffer]. by rewrite H2, H1. }
  pose proof (sampling_loop_returned w _ 0 (clock_start w) st st1 H3 Hloop)
    as (L1 & L2 & L3 & L4 & L5).
  subst st. cbn [emit instruments csv_header] in Hinv, L2, L3. cbn [app] in Hinv.
  assert (Hrun : run w (SensorReader cfgs fname header ports None)
                 = cleanup w (rounds_before_stop w) st1).
  { unfold run. fold st0. destruct (instruments st0); [done|]. cbn [is_empty].
    by rewrite Hloop. }
  destruct (cleanup_cases w (rounds_before_stop w) st1) as [[e He]|Hc].
  { exfalso. unfold cleanup in He. cbn [readings_buffer disk csv_header emit] in He.
    destruct (readings_buffer st1) eqn:Hb; [discriminate|]. cbn [is_empty] in He.
    rewrite Hio, write_to_csv_no_fault in He by done. discriminate. }
  eexists. split; [by rewrite Hrun, Hc|].
  rewrite close_ports_disk. unfold log_inv in Hinv. rewrite L3, H4 in Hinv |- *.
  destruct (disk st1) as [content|] eqn:Hd.
  - destruct Hinv as (flushed & -> & Hne & Hrows). rewrite <- Hrows.
    destruct (readings_buffer st1) eqn:Hb;
      cbn [is_empty disk emit set_disk with_header].
    + rewrite Hd, app_nil_r. by destruct flushed.
    + cbn [app]. by destruct flushed.
  - rewrite <- Hinv.
    destruct (readings_buffer st1) eqn:Hb;
      cbn [is_empty disk emit set_disk with_header]; [by rewrite Hd|done].
Qed.


(** ** Instances *)

(** C1, counterexample.  With no port that opens, the thread returns
    without a round and the exit status of the process is 0. *)
Lemma zero_channels_exit_code_counterexample :
  (forall pos cfg, open_port dead_world pos cfg = Raise SerialException) /\
  rounds_executed
    (trace (state_of (thread (main dead_world "20240101_100000" ∅ None)))) = 0%nat /\
  exit_code (main dead_world "20240101_100000" ∅ None) = Some 0%Z.
Proof. split; [done|]. vm_compute. split; reflexivity. Qed.

Lemma run_without_instruments_witness :
  exists st',
    run dead_world sample_reader = Returned st' /\
    rounds_executed (trace st') = 0%nat /\
    last (trace st') = Some (Printed MsgNoSensors) /\
    _running st' = false /\
    readings_buffer st' = [] /\
    disk st' = None /\
    ∅ ⊆ open_ports st' /\
    ((forall pos cfg, SENSORS !! pos = Some cfg ->
        exists e, open_port dead_world pos cfg = Raise e) ->
     open_ports st' = ∅) /\
    exit_status (run dead_world sample_reader) = Some 0%Z.
Proof.
  apply (run_without_instruments dead_world SENSORS
           "sensor_data_20240101_100000.csv" CSV_HEADER ∅ None).
  intros pos cfg _. by exists SerialException.
Defined.

(** C2, instances.  In [denied_world] the write of round 0 is refused; in
    [late_fault_world] the write of the cleanup is. *)
Lemma failed_flush_keeps_buffer_witness :
  (let st := at_loop_entry denied_world in
   let row := round_row denied_world 0 (values_at denied_world 0 (instruments st)) in
   exists st',
     sample_round denied_world 0 100%float st = (Raised PermissionError st', 100%float) /\
     readings_buffer st' = readings_buffer st ++ [row] /\
     disk st' = None /\
     (forall until_stop, _running st = true ->
        sampling_loop denied_world (S until_stop) 0 100%float st
        = Raised PermissionError st')) /\
  (let st := at_stop late_fault_world in
   exists st',
     cleanup late_fault_world 2 st = Raised PermissionError st' /\
     readings_buffer st' = readings_buffer st /\
     readings_buffer st' <> [] /\
     disk st' = None).
Proof.
  split.
  - apply (proj1 (failed_flush_keeps_buffer denied_world 0 100%float
                    (at_loop_entry denied_world) PermissionError None));
      vm_compute; reflexivity.
  - apply (proj1 (proj2 (failed_flush_keeps_buffer late_fault_world 2 100%float
                           (at_stop late_fault_world) PermissionError None))).
    vm_compute. reflexivity.
Defined.

(** C6, at the failing input.  The port cannot be opened for the first
    sensor; the second sensor is set up, does not answer in round 1 and
    answers 2024 in the other rounds.  The program has two configured
    sensors, a header with a column for each and a plot for each, but its
    rounds carry one entry: the value of the second sensor is logged in
    the column of the first and drawn in the plot of the first, and
    nothing is logged or drawn for the second. *)
Theorem partial_setup_shifts_channels :
  let st := state_of (thread (main half_world "20240101_100000" ∅ None)) in
  let window := (Display.deliver (emitted (trace st)) Display.MainWindow_init).2 in
  map NAME SENSORS = ["Sensor 1"; "Sensor 2"] /\
  map (fun it => NAME (item_config it)) (instruments st) = ["Sensor 2"] /\
  emitted (trace st) = [[Some 25%float]; [None]; [Some 25%float]; [Some 25%float]] /\
  disk st
  = Some [[FStr "Timestamp"; FStr "Sensor 1 (mm)"; FStr "Sensor 2 (mm)"];
          [FStr "2024-01-01 10:00:00.000"; FNum 25%float];
          [FStr "2024-01-01 10:00:00.033"; FNone];
          [FStr "2024-01-01 10:00:00.067"; FNum 25%float];
          [FStr "2024-01-01 10:00:00.100"; FNum 25%float]] /\
  Display.data_buffers window
  = [[25%float; PrimFloat.nan; 25%float; 25%float]; []].
Proof. vm_compute. repeat split; reflexivity. Qed.

(** C7, at the failing input.  The window is closed after one round and
    before the write interval has elapsed: the cleanup writes the header
    and the row, [run] returns, and the buffer still holds the row. *)
Theorem shutdown_flush_keeps_buffer :
  let st2 := state_of (run quick_world sample_reader) in
  let row0 := [FStr "2024-01-01 10:00:00.000"; FNum 1750%float; FNum 25%float] in
  exit_status (run quick_world sample_reader) = Some 0%Z /\
  disk st2 = Some [CSV_HEADER; row0] /\
  readings_buffer st2 = [row0].
Proof. vm_compute. repeat split; reflexivity. Qed.

(** The second sensor does not answer in round 1 of [bench_world]: its
    entry is [None], the entry of the first sensor is not affected. *)
Example round_with_silent_channel :
  read_all bench_world 1 (instruments (at_loop_entry bench_world))
  = Ok [Some 1750%float; None].
Proof. vm_compute. reflexivity. Qed.

Lemma run_log_complete_witness :
  exists st2,
    run bench_world sample_reader = Returned st2 /\
    disk st2
    = match rows_of bench_world
              (instruments (setup_instruments bench_world sample_reader)) 0
              (rounds_before_stop bench_world) with
      | [] => None
      | rows => Some (CSV_HEADER :: rows)
      end.
Proof.
  apply (run_log_complete bench_world SENSORS
           "sensor_data_20240101_100000.csv" CSV_HEADER ∅).
  - done.
  - vm_compute. intros H. discriminate H.
Defined.



End LiveFacts.

(** * The figure of viz.py, from the log to a frame *)
Module FigureFacts.
Import Playback Samples PlaybackFacts.
Local Open Scope Z_scope.

(** ** The ends of the frame mapping *)

Lemma searchsorted_right_all (T : list Z) (key : Z) :
  non_decreasing T = true ->
  (forall t, t ∈ T -> t <= key) ->
  searchsorted_right T key = length T.
Proof.
  intros Hs Hall.
  destruct (searchsorted_right_sorted T key Hs) as (Hr & _ & Hhi).
  destruct (decide (searchsorted_right T key = length T)) as [|Hne]; [done|].
  specialize (Hhi (searchsorted_right T key) ltac:(lia)).
  assert (T !!! searchsorted_right T key ∈ T).
  { apply list_elem_of_lookup. exists (searchsorted_right T key).
    apply list_lookup_lookup_total_lt. lia. }
  specialize (Hall _ H). lia.
Qed.

Lemma searchsorted_right_none (T : list Z) (key : Z) :
  non_decreasing T = true ->
  (forall t, t ∈ T -> key < t) ->
  searchsorted_right T key = 0%nat.
Proof.
  intros Hs Hall.
  destruct (searchsorted_right_sorted T key Hs) as (Hr & Hlo & _).
  destruct (searchsorted_right T key) as [|r] eqn:E; [done|].
  specialize (Hlo 0%nat ltac:(lia)).
  assert (T !!! 0%nat ∈ T).
  { apply list_elem_of_lookup. exists 0%nat.
    apply list_lookup_lookup_total_lt. lia. }
  specialize (Hall _ H). lia.
Qed.

Lemma head_le_all (T : list Z) t :
  non_decreasing T = true -> t ∈ T -> default 0 (head T) <= t.
Proof.
  intros Hs Ht. apply list_elem_of_lookup in Ht as [j Hj].
  destruct T as [|t0 T']; [done|]. cbn [head default].
  eapply (non_decreasing_lookup _ Hs 0 j); [lia|done|done].
Qed.

Lemma all_le_last (T : list Z) t :
  non_decreasing T = true -> t ∈ T -> t <= default 0 (last T).
Proof.
  intros Hs Ht. apply list_elem_of_lookup in Ht as [j Hj].
  pose proof (lookup_lt_Some _ _ _ Hj) as Hlt.
  destruct (last T) as [tl|] eqn:El.
  2:{ apply last_None in El. subst. simpl in Hlt. lia. }
  cbn [default]. rewrite last_lookup in El.
  eapply (non_decreasing_lookup _ Hs j (Nat.pred (length T))); [lia|done|done].
Qed.

(** X1.  The mapping is clamped at both ends: a negative frame number gives
    index 0, and a frame whose target time has reached the last timestamp
    gives the last index. *)
Theorem get_frame_time_idx_clamped (T : list Z) (f : Z) :
  non_decreasing T = true -> (2 <= length T)%nat ->
  default 0 (head T) < default 0 (last T) ->
  (f < 0 -> get_frame_time_idx T f = 0) /\
  (default 0 (last T) <= default 0 (head T) + (f * 1000) ÷ target_fps * ns_per_ms ->
   get_frame_time_idx T f = Z.of_nat (length T) - 1).
Proof.
  intros Hs Hlen Hdur.
  rewrite (get_frame_time_idx_regular T f Hlen) by lia.
  fold (frame_offset_ms f). split.
  - intros Hf. rewrite searchsorted_right_none; [unfold clip; lia|done|].
    intros t Ht. pose proof (head_le_all T t Hs Ht).
    assert (frame_offset_ms f < 0); [|unfold ns_per_ms; lia].
    unfold frame_offset_ms, target_fps.
    pose proof (Z.quot_le_mono (f * 1000) (-1000) 30 ltac:(lia) ltac:(lia)) as Hq.
    change (-1000 ÷ 30) with (-33) in Hq. lia.
  - intros Hend. rewrite searchsorted_right_all; [unfold clip; lia|done|].
    intros t Ht. pose proof (all_le_last T t Hs Ht). lia.
Qed.

Lemma get_frame_time_idx_clamped_witness :
  (-3 < 0 -> get_frame_time_idx tenth_second_series (-3) = 0) /\
  (default 0 (last tenth_second_series)
   <= default 0 (head tenth_second_series) + (-3 * 1000) ÷ target_fps * ns_per_ms ->
   get_frame_time_idx tenth_second_series (-3)
   = Z.of_nat (length tenth_second_series) - 1).
Proof.
  apply (get_frame_time_idx_clamped tenth_second_series (-3));
    [reflexivity | simpl; lia | simpl; lia].
Defined.

(** X2.  Frame 0 does not always show the first record: it maps to the last of
    the records that carry the first timestamp. *)
Theorem get_frame_time_idx_frame_0 (T : list Z) :
  non_decreasing T = true -> (2 <= length T)%nat ->
  default 0 (head T) < default 0 (last T) ->
  let i := Z.to_nat (get_frame_time_idx T 0) in
  (i < length T)%nat /\
  T !!! i = default 0 (head T) /\
  (forall j, (i < j < length T)%nat -> default 0 (head T) < T !!! j).
Proof.
  intros Hs Hlen Hdur i.
  pose proof (get_frame_time_idx_regular T 0 Hlen ltac:(lia)) as Hidx.
  change (frame_offset_ms 0) with 0 in Hidx. rewrite Z.mul_0_l, Z.add_0_r in Hidx.
  set (t0 := default 0 (head T)) in *.
  destruct (searchsorted_right_sorted T t0 Hs) as (Hr & Hlo & Hhi).
  assert (Ht0 : T !!! 0%nat = t0) by (subst t0; by destruct T).
  assert (1 <= searchsorted_right T t0)%nat.
  { destruct (searchsorted_right T t0) eqn:E; [|lia].
    specialize (Hhi 0%nat ltac:(lia)). lia. }
  unfold clip in Hidx.
  assert (Hi : i = (searchsorted_right T t0 - 1)%nat) by (subst i; lia).
  split; [lia|]. split.
  - pose proof (Hlo i ltac:(lia)).
    pose proof (non_decreasing_total T 0 i Hs ltac:(lia)). lia.
  - intros j Hj. apply Hhi. lia.
Qed.
Lemma get_frame_time_idx_frame_0_witness :
  let i := Z.to_nat (get_frame_time_idx repeated_start_series 0) in
  (i < length repeated_start_series)%nat /\
  repeated_start_series !!! i = default 0 (head repeated_start_series) /\
  (forall j, (i < j < length repeated_start_series)%nat ->
             default 0 (head repeated_start_series) < repeated_start_series !!! j).
Proof.
  apply (get_frame_time_idx_frame_0 repeated_start_series);
    [reflexivity | simpl; lia | simpl; lia].
Defined.

(** ** The window on a sorted series *)

Lemma filter_last_Some {A} (p : A -> bool) (l : list A) x :
  last (List.filter p l) = Some x -> x ∈ l /\ p x = true.
Proof.
  intros H. assert (Hin : x ∈ List.filter p l).
  { rewrite last_lookup in H. apply list_elem_of_lookup. eauto. }
  apply list_elem_of_In, filter_In in Hin as [Hin Hp].
  split; [by apply list_elem_of_In|done].
Qed.

Lemma non_decreasing_filter (p : Z -> bool) (T : list Z) :
  non_decreasing T = true -> non_decreasing (List.filter p T) = true.
Proof.
  induction T as [|x T IH]; intros Hs; [done|].
  pose proof (non_decreasing_tail _ _ Hs) as Hs'. cbn [List.filter].
  destruct (p x); [|by apply IH].
  specialize (IH Hs').
  destruct (List.filter p T) as [|y F] eqn:EF; [done|].
  change (non_decreasing (x :: y :: F)) with ((x <=? y) && non_decreasing (y :: F)).
  rewrite IH, andb_true_r. apply Z.leb_le.
  assert (Hy : y ∈ T).
  { assert (H : y ∈ List.filter p T) by (rewrite EF; apply list_elem_of_here).
    apply list_elem_of_In, filter_In in H as [H _]. by apply list_elem_of_In. }
  apply list_elem_of_lookup in Hy as [j Hj].
  by apply (non_decreasing_head _ _ Hs j).
Qed.

Lemma window_returns (T : list Z) (idx w : Z) :
  0 <= idx < Z.of_nat (length T) -> 0 <= w ->
  exists end_time,
    T !! Z.to_nat idx = Some end_time /\
    window T idx w
    = Ok (end_time, window_mask T end_time w,
          boolean_index T (window_mask T end_time w)) /\
    boolean_index T (window_mask T end_time w)
    = List.filter (fun t => (end_time - w * ns_per_s <=? t) && (t <=? end_time)) T /\
    end_time ∈ boolean_index T (window_mask T end_time w).
Proof.
  intros Hidx Hw.
  destruct (T !! Z.to_nat idx) as [end_time|] eqn:E.
  2:{ apply lookup_ge_None in E. lia. }
  exists end_time. split; [done|].
  assert (Hsel : boolean_index T (window_mask T end_time w)
                 = List.filter (fun t => (end_time - w * ns_per_s <=? t) && (t <=? end_time)) T)
    by (unfold window_mask; apply boolean_index_map).
  split; [|split; [done|]].
  - unfold window, py_index.
    destruct (Z.ltb_spec idx 0); [lia|]. destruct (Z.ltb_spec idx 0); [lia|].
    by rewrite E.
  - rewrite Hsel. apply list_elem_of_In, filter_In. split.
    + apply list_elem_of_In, list_elem_of_lookup. eauto.
    + unfold ns_per_s. apply andb_true_iff. split; lia.
Qed.

(** X4.  With a window length that is not negative the selection is never
    empty: it holds the record of the data index itself.  It starts no
    earlier than the window, and on a sorted series it ends on the end
    time, so the x-limits that [animate] sets span at most the window. *)
Theorem window_ends_on_end_time (T : list Z) (idx w : Z) :
  0 <= idx < Z.of_nat (length T) -> 0 <= w ->
  exists end_time mask t first,
    window T idx w = Ok (end_time, mask, t) /\
    end_time ∈ t /\
    head t = Some first /\
    end_time - w * ns_per_s <= first <= end_time /\
    (non_decreasing T = true -> last t = Some end_time).
Proof.
  intros Hidx Hw.
  destruct (window_returns T idx w Hidx Hw) as (end_time & E & Hwin & Hsel & Hin).
  set (p := fun t => (end_time - w * ns_per_s <=? t) && (t <=? end_time)) in *.
  rewrite Hsel in Hwin, Hin. clear Hsel.
  destruct (List.filter p T) as [|first rest] eqn:Ef; [by apply elem_of_nil in Hin|].
  exists end_time, (window_mask T end_time w), (first :: rest), first.
  split; [done|]. split; [done|]. split; [done|]. split.
  { assert (Hf : first ∈ List.filter p T) by (rewrite Ef; apply list_elem_of_here).
    apply list_elem_of_In, filter_In in Hf as [_ Hf].
    subst p. cbn beta in Hf. apply andb_true_iff in Hf. lia. }
  intros Hs. rewrite <- Ef.
  destruct (last (List.filter p T)) as [tl|] eqn:El.
  2:{ apply last_None in El. rewrite El in Ef. discriminate. }
  f_equal.
  pose proof (filter_last_Some p T tl El) as [Htl Hp].
  subst p. cbn beta in Hp. apply andb_true_iff in Hp as [_ Hp].
  (* nothing in the selection lies after the end time, and the end time is in it *)
  assert (Hend : end_time <= tl); [|lia].
  rewrite <- Ef in Hin. apply list_elem_of_lookup in Hin as [a Ha].
  rewrite last_lookup in El.
  assert (Hsorted : non_decreasing (List.filter (fun t =>
            (end_time - w * ns_per_s <=? t) && (t <=? end_time)) T) = true)
    by (by apply non_decreasing_filter).
  pose proof (lookup_lt_Some _ _ _ Ha).
  eapply (non_decreasing_lookup _ Hsorted a); [|exact Ha|exact El]. lia.
Qed.

Lemma window_ends_on_end_time_witness :
  exists end_time mask t first,
    window gap_series 2 3 = Ok (end_time, mask, t) /\
    end_time ∈ t /\
    head t = Some first /\
    end_time - 3 * ns_per_s <= first <= end_time /\
    (non_decreasing gap_series = true -> last t = Some end_time).
Proof. apply (window_ends_on_end_time gap_series 2 3); simpl; lia. Defined.

(** ** The value matrix *)

Section Matrix.
Variable cell : Type.
Variable to_datetime : cell -> option Z.

Lemma select_positions (cols : list string) : forall (r pre : list cell),
  length r = length cols ->
  select cell (sensor_positions (length pre) cols) (pre ++ r) = under_sensor_cols cols r.
Proof.
  unfold select, under_sensor_cols.
  induction cols as [|c cols IH]; intros r pre Hr.
  - by destruct r.
  - destruct r as [|x r]; [discriminate|]. injection Hr as Hr.
    cbn [sensor_positions zip zip_with List.filter fst].
    specialize (IH r (pre ++ [x]) Hr).
    rewrite length_app in IH. cbn [length] in IH.
    replace (length pre + 1)%nat with (S (length pre)) in IH by lia.
    rewrite <- app_assoc in IH. cbn [app] in IH.
    destruct (is_sensor_col c).
    + cbn [omap list_omap map snd]. cbn [omap] in IH.
      rewrite lookup_app_r by lia. rewrite Nat.sub_diag. cbn [lookup list_lookup].
      f_equal. exact IH.
    + exact IH.
Qed.

Lemma under_sensor_cols_length (cols : list string) : forall (r : list cell),
  length r = length cols ->
  length (under_sensor_cols cols r) = length (List.filter is_sensor_col cols).
Proof.
  unfold under_sensor_cols.
  induction cols as [|c cols IH]; intros r Hr; [by destruct r|].
  destruct r as [|x r]; [discriminate|]. injection Hr as Hr.
  cbn [zip zip_with List.filter fst].
  destruct (is_sensor_col c); cbn [map length]; rewrite (IH r Hr); done.
Qed.

Lemma loaded_matrix_shape (df : DataFrame cell) printed (s : series cell) :
  Forall (fun r => length r = length (columns df)) (records df) ->
  load cell to_datetime (Ok df) = Loaded printed s ->
  exists k,
    column_position TIMESTAMP_COL_NAME (columns df) = Some k /\
    ride_height_data s
    = map (under_sensor_cols (columns df))
        (List.filter (fun r => bool_decide (is_Some (r !! k ≫= to_datetime)))
           (records df)) /\
    length (ride_height_data s) = length (time_data s) /\
    Forall (fun row => length row = length (sensor_cols s)) (ride_height_data s).
Proof.
  intros Hwf Hload.
  destruct (column_position TIMESTAMP_COL_NAME (columns df)) as [k|] eqn:Hk.
  2:{ unfold load in Hload. rewrite Hk in Hload. discriminate. }
  exists k. split; [done|].
  destruct (load_with_timestamp_column cell to_datetime df k Hk) as (_ & _ & H3).
  destruct (H3 printed s Hload) as (Ht & Hd & Hlen & Hc & _).
  assert (Hrows : ride_height_data s
    = map (under_sensor_cols (columns df))
        (List.filter (fun r => bool_decide (is_Some (r !! k ≫= to_datetime)))
           (records df))).
  { rewrite Hd. apply map_ext_in. intros r Hr.
    apply filter_In in Hr as [Hr _]. apply list_elem_of_In in Hr.
    apply (select_positions (columns df) r []).
    by apply (proj1 (Forall_forall _ _) Hwf). }
  split; [done|]. split; [done|].
  rewrite Hrows, Hc. apply Forall_forall. intros row Hrow.
  apply list_elem_of_In, in_map_iff in Hrow as (r & <- & Hr).
  apply filter_In in Hr as [Hr _]. apply list_elem_of_In in Hr.
  apply under_sensor_cols_length. by apply (proj1 (Forall_forall _ _) Hwf).
Qed.

(** X5.  When every record has one cell per column, the matrix is rectangular:
    one row per record whose timestamp parses and one column per matched
    column name; a row holds the cells of its record that stand under the
    matched columns, in file order, wherever those columns are. *)
Theorem load_matrix_by_column (df : DataFrame cell) printed (s : series cell) :
  Forall (fun r => length r = length (columns df)) (records df) ->
  load cell to_datetime (Ok df) = Loaded printed s ->
  exists k,
    column_position TIMESTAMP_COL_NAME (columns df) = Some k /\
    ride_height_data s
    = map (under_sensor_cols (columns df))
        (List.filter (fun r => bool_decide (is_Some (r !! k ≫= to_datetime)))
           (records df)) /\
    length (ride_height_data s) = length (time_data s) /\
    Forall (fun row => length row = length (sensor_cols s)) (ride_height_data s).
Proof. apply loaded_matrix_shape. Qed.

Lemma layout_of_loaded (df : DataFrame cell) printed (s : series cell) :
  load cell to_datetime (Ok df) = Loaded printed s ->
  exists fig,
    layout cell s = Ready fig /\
    (1 <= num_sensors fig <= 4)%nat /\
    num_sensors fig = Nat.min 4 (length (List.filter is_sensor_col (columns df))) /\
    length (sensor_cols (fig_series fig)) = num_sensors fig /\
    (num_sensors fig <= (subplot_grid fig).1 * (subplot_grid fig).2)%nat /\
    lines cell fig = seq 0 (num_sensors fig) /\
    time_data (fig_series fig) = time_data s.
Proof.
  intros Hload.
  assert (Hcols : sensor_cols s = List.filter is_sensor_col (columns df)
                  /\ sensor_cols s <> []).
  { unfold load in Hload.
    destruct (column_position _ _); [|discriminate].
    destruct (_ && _); [discriminate|].
    destruct (List.filter is_sensor_col (columns df)) eqn:E; [discriminate|].
    cbn [is_empty] in Hload. injection Hload as _ <-. by cbn. }
  destruct Hcols as [Hcols Hne]. rewrite <- Hcols.
  assert (0 < length (sensor_cols s))%nat
    by (destruct (sensor_cols s); [done|simpl; lia]).
  unfold layout.
  destruct (Nat.eqb_spec (length (sensor_cols s)) 0); [lia|].
  destruct (Nat.ltb_spec (length (sensor_cols s)) 4).
  { eexists. split; [done|].
    cbn [num_sensors fig_series sensor_cols subplot_grid time_data fst snd lines].
    repeat split; lia. }
  destruct (Nat.ltb_spec 4 (length (sensor_cols s))).
  - eexists. split; [done|].
    cbn [num_sensors fig_series sensor_cols subplot_grid time_data fst snd lines].
    rewrite length_take. repeat split; lia.
  - eexists. split; [done|].
    cbn [num_sensors fig_series sensor_cols subplot_grid time_data fst snd lines].
    repeat split; lia.
Qed.

(** X6.  A loaded series always gets a figure: between one and four lines,
    as many as the channel columns kept, on a grid with room for them, over
    the same timestamps. *)
Theorem layout_after_load (df : DataFrame cell) printed (s : series cell) :
  load cell to_datetime (Ok df) = Loaded printed s ->
  exists fig,
    layout cell s = Ready fig /\
    (1 <= num_sensors fig <= 4)%nat /\
    num_sensors fig = Nat.min 4 (length (List.filter is_sensor_col (columns df))) /\
    length (sensor_cols (fig_series fig)) = num_sensors fig /\
    (num_sensors fig <= (subplot_grid fig).1 * (subplot_grid fig).2)%nat /\
    lines cell fig = seq 0 (num_sensors fig) /\
    time_data (fig_series fig) = time_data s.
Proof. apply layout_of_loaded. Qed.

(** ** Drawing a frame *)

Lemma boolean_index_length {A B} (a : list A) (b : list B) : forall mask,
  length a = length b ->
  length (boolean_index a mask) = length (boolean_index b mask).
Proof.
  revert b. induction a as [|x a IH]; intros [|y b] mask Hl; try discriminate.
  - done.
  - injection Hl as Hl. destruct mask as [|[] mask]; cbn [boolean_index length];
      [done|f_equal|]; by apply IH.
Qed.

Lemma boolean_index_Forall {A} (P : A -> Prop) (a : list A) : forall mask,
  Forall P a -> Forall P (boolean_index a mask).
Proof.
  induction a as [|x a IH]; intros mask Ha; [done|].
  apply Forall_cons in Ha as [Hx Ha].
  destruct mask as [|[] mask]; cbn [boolean_index]; [done| |by apply IH].
  apply Forall_cons. split; [done|by apply IH].
Qed.

Lemma masked_column_length (data : list (list cell)) mask (i : nat) :
  Forall (fun row => (i < length row)%nat) data ->
  length (masked_column cell data mask i) = length (boolean_index data mask).
Proof.
  intros Hd. unfold masked_column.
  pose proof (boolean_index_Forall _ data mask Hd) as Hsel.
  induction (boolean_index data mask) as [|row sel IH]; [done|].
  apply Forall_cons in Hsel as [Hrow Hsel]. cbn [omap list_omap].
  destruct (row !! i) eqn:E.
  - cbn [length]. f_equal. by apply IH.
  - apply lookup_ge_None in E. lia.
Qed.

(** X7.  For a figure made from a log whose records have one cell per column,
    every frame draws: each of the figure's lines gets as many values as
    timestamps, and at least one. *)
Theorem animate_lines_aligned (df : DataFrame cell) printed (s : series cell)
    (fig : figure cell) (frame : Z) :
  Forall (fun r => length r = length (columns df)) (records df) ->
  load cell to_datetime (Ok df) = Loaded printed s ->
  layout cell s = Ready fig ->
  time_data s <> [] ->
  exists frame_lines,
    animate cell fig frame = Ok frame_lines /\
    length frame_lines = num_sensors fig /\
    Forall (fun l => length (ydata cell l) = length (xdata cell l)
                     /\ xdata cell l <> []) frame_lines.
Proof.
  intros Hwf Hload Hlay Hne.
  destruct (loaded_matrix_shape df printed s Hwf Hload) as (k & _ & _ & Hrows & Hwidth).
  destruct (layout_of_loaded df printed s Hload)
    as (fig' & Hlay' & Hn & Hmin & Hcols & _ & Hlines & Htime).
  rewrite Hlay in Hlay'. injection Hlay' as <-.
  (* the matrix of the figure: as many rows as timestamps, wide enough *)
  assert (Hshape : length (ride_height_data (fig_series fig))
                   = length (time_data (fig_series fig))
                   /\ Forall (fun row => (num_sensors fig <= length row)%nat)
                        (ride_height_data (fig_series fig))).
  { rewrite Htime. unfold layout in Hlay.
    destruct (length (sensor_cols s) =? 0)%nat; [discriminate|].
    destruct (Nat.ltb_spec (length (sensor_cols s)) 4).
    { injection Hlay as <-. cbn [fig_series ride_height_data num_sensors].
      split; [done|]. eapply Forall_impl; [exact Hwidth|]. cbn beta. intros; lia. }
    destruct (Nat.ltb_spec 4 (length (sensor_cols s))); injection Hlay as <-;
      cbn [fig_series ride_height_data num_sensors].
    - split; [by rewrite length_map|]. apply Forall_fmap.
      eapply Forall_impl; [exact Hwidth|]. intros row Hr.
      unfold compose. cbn beta in Hr. rewrite length_take. lia.
    - split; [done|]. eapply Forall_impl; [exact Hwidth|]. cbn beta. intros; lia. }
  destruct Hshape as [Hlen Hwide].
  set (T := time_data (fig_series fig)) in *.
  assert (HT : T <> []) by (subst T; by rewrite Htime).
  pose proof (get_frame_time_idx_in_range T frame HT) as Hidx.
  destruct (window_returns T (get_frame_time_idx T frame) data_window_s Hidx
              ltac:(done)) as (end_time & _ & Hw & _ & Hin).
  set (mask := window_mask T end_time data_window_s) in *.
  assert (Hsel : boolean_index T mask <> [])
    by (intros Hnil; rewrite Hnil in Hin; by apply elem_of_nil in Hin).
  unfold animate. fold T. rewrite Hw. cbn [bind].
  eexists. split; [done|]. split; [by rewrite length_map, Hlines, length_seq|].
  apply Forall_fmap, Forall_forall. intros i Hi. cbn [ydata xdata].
  rewrite Hlines in Hi. apply elem_of_seq in Hi.
  split; [|done]. unfold compose. cbn [ydata xdata].
  rewrite masked_column_length.
  - by apply boolean_index_length.
  - eapply Forall_impl; [exact Hwide|]. cbn beta. intros; lia.
Qed.

(** X8.  The frame computation fails on exactly one input: a figure without
    any record raises [IndexError]; with a record it returns one state per
    line, whatever the frame number and whether or not the series is
    sorted, and the x-limits it sets are timestamps of the selection. *)
Theorem animate_raises_without_records (fig : figure cell) (frame : Z) :
  (time_data (fig_series fig) = [] -> animate cell fig frame = Raise IndexError) /\
  (time_data (fig_series fig) <> [] ->
   exists frame_lines,
     animate cell fig frame = Ok frame_lines /\
     length frame_lines = num_sensors fig /\
     Forall (fun l => xdata cell l <> []
               /\ (xlim cell l).1 ∈ xdata cell l /\ (xlim cell l).2 ∈ xdata cell l)
       frame_lines).
Proof.
  split.
  - intros HT. unfold animate. rewrite HT. done.
  - intros HT. set (T := time_data (fig_series fig)) in *.
    pose proof (get_frame_time_idx_in_range T frame HT) as Hidx.
    destruct (window_returns T (get_frame_time_idx T frame) data_window_s Hidx
                ltac:(done)) as (end_time & _ & Hw & _ & Hin).
    unfold animate. fold T. rewrite Hw. cbn [bind].
    eexists. split; [done|]. split; [unfold lines; by rewrite length_map, length_seq|].
    apply Forall_fmap, Forall_forall. intros i _. unfold compose. cbn [xdata xlim fst snd].
    destruct (boolean_index T (window_mask T end_time data_window_s)) as [|x t];
      [by apply elem_of_nil in Hin|].
    split; [done|]. split.
    + cbn [head default]. apply list_elem_of_here.
    + destruct (last (x :: t)) as [tl|] eqn:El; [|by apply last_None in El].
      cbn [default]. rewrite last_lookup in El. apply list_elem_of_lookup. eauto.
Qed.

End Matrix.

Lemma load_matrix_by_column_witness :
  exists k,
    column_position TIMESTAMP_COL_NAME (columns five_channels) = Some k /\
    ride_height_data five_channels_series
    = map (under_sensor_cols (columns five_channels))
        (List.filter (fun r => bool_decide (is_Some (r !! k ≫= toy_to_datetime)))
           (records five_channels)) /\
    length (ride_height_data five_channels_series)
    = length (time_data five_channels_series) /\
    Forall (fun row => length row = length (sensor_cols five_channels_series))
      (ride_height_data five_channels_series).
Proof.
  apply (load_matrix_by_column string toy_to_datetime five_channels [WarnNaT]);
    [repeat constructor | reflexivity].
Defined.

Lemma layout_after_load_witness :
  exists fig,
    layout string five_channels_series = Ready fig /\
    (1 <= num_sensors fig <= 4)%nat /\
    num_sensors fig
    = Nat.min 4 (length (List.filter is_sensor_col (columns five_channels))) /\
    length (sensor_cols (fig_series fig)) = num_sensors fig /\
    (num_sensors fig <= (subplot_grid fig).1 * (subplot_grid fig).2)%nat /\
    lines string fig = seq 0 (num_sensors fig) /\
    time_data (fig_series fig) = time_data five_channels_series.
Proof.
  apply (layout_after_load string toy_to_datetime five_channels [WarnNaT]).
  reflexivity.
Defined.

Lemma animate_lines_aligned_witness :
  exists frame_lines,
    animate string five_channels_figure 2 = Ok frame_lines /\
    length frame_lines = num_sensors five_channels_figure /\
    Forall (fun l => length (ydata string l) = length (xdata string l)
                     /\ xdata string l <> []) frame_lines.
Proof.
  apply (animate_lines_aligned string toy_to_datetime five_channels [WarnNaT]
           five_channels_series five_channels_figure 2);
    [repeat constructor | reflexivity | reflexivity | discriminate].
Defined.

(** ** The header written by the logger *)

Lemma ends_with_String (suf s : string) (c : Ascii.ascii) :
  ends_with suf s = true -> ends_with suf (String c s) = true.
Proof.
  unfold ends_with. cbn [String.length]. intros H.
  apply andb_true_iff in H as [Hm He]. apply Nat.leb_le in Hm.
  apply andb_true_iff. split; [apply Nat.leb_le; lia|].
  replace (S (String.length s) - String.length suf)%nat
    with (S (String.length s - String.length suf)) by lia.
  exact He.
Qed.

Lemma ends_with_append (suf pre s : string) :
  ends_with suf s = true -> ends_with suf (pre +:+ s) = true.
Proof.
  intros H. induction pre as [|c pre IH]; [done|].
  cbn [String.append]. by apply ends_with_String.
Qed.

(** X9.  The player finds its columns in a log of the logger: under the header
    that the logger builds for sensors whose unit is mm, the time column is
    the first one and every other column is a channel column. *)
Theorem logger_header_is_read (sensors : list Live.sensor_config) :
  Forall (fun sensor => Live.UNIT sensor = "mm") sensors ->
  let names :=
    map (fun sensor => Live.NAME sensor +:+ " (" +:+ Live.UNIT sensor +:+ ")") sensors in
  column_position TIMESTAMP_COL_NAME ("Timestamp" :: names) = Some 0%nat /\
  List.filter is_sensor_col ("Timestamp" :: names) = names /\
  sensor_positions 0 ("Timestamp" :: names) = seq 1 (length sensors).
Proof.
  intros Hu names.
  assert (Hall : Forall (fun c => is_sensor_col c = true) names).
  { subst names. apply Forall_fmap. eapply Forall_impl; [exact Hu|].
    intros sensor Hs. unfold compose. rewrite Hs. unfold is_sensor_col.
    apply orb_true_iff. left. by apply ends_with_append. }
  split; [done|]. split.
  - change (List.filter is_sensor_col ("Timestamp" :: names))
      with (List.filter is_sensor_col names).
    clear -Hall. induction Hall as [|c l Hc _ IH]; [done|].
    cbn [List.filter]. by rewrite Hc, IH.
  - change (sensor_positions 0 ("Timestamp" :: names))
      with (sensor_positions 1 names).
    replace (length sensors) with (length names) by (subst names; apply length_map).
    clear -Hall. generalize 1%nat.
    induction Hall as [|c l Hc _ IH]; intros n; [done|].
    cbn [sensor_positions length seq]. by rewrite Hc, IH.
Qed.

Lemma logger_header_is_read_witness :
  let names :=
    map (fun sensor => Live.NAME sensor +:+ " (" +:+ Live.UNIT sensor +:+ ")")
      Live.SENSORS in
  column_position TIMESTAMP_COL_NAME ("Timestamp" :: names) = Some 0%nat /\
  List.filter is_sensor_col ("Timestamp" :: names) = names /\
  sensor_positions 0 ("Timestamp" :: names) = seq 1 (length Live.SENSORS).
Proof. apply (logger_header_is_read Live.SENSORS). repeat constructor. Defined.

End FigureFacts.

(** * The reader thread: ports, log and trace *)
Module ReaderFacts.
Import Live Samples LiveFacts.

(** ** Reading one sensor *)

Lemma py_index_in_range {A} `{Inhabited A} (l : list A) (i : Z) :
  let n := Z.of_nat (length l) in
  py_index l i
  = if ((- n <=? i) && (i <? n))%Z then Ok (l !!! Z.to_nat (i mod n))
    else Raise IndexError.
Proof.
  cbv zeta. unfold py_index. set (n := Z.of_nat (length l)).
  destruct (Z.ltb_spec i 0).
  - destruct (Z.ltb_spec (i + n) 0).
    + destruct (Z.leb_spec (- n) i); [lia|done].
    + destruct (Z.leb_spec (- n) i); [|lia]. destruct (Z.ltb_spec i n); [|lia].
      cbn [andb].
      replace (i mod n)%Z with (i + n)%Z.
      2:{ apply Z.mod_unique with (q := (-1)%Z); lia. }
      destruct (l !! Z.to_nat (i + n)) eqn:E.
      * by rewrite (list_lookup_total_correct _ _ _ E).
      * apply lookup_ge_None in E. lia.
  - destruct (Z.ltb_spec i 0); [lia|].
    destruct (Z.leb_spec (- n) i); [|lia]. cbn [andb].
    destruct (Z.ltb_spec i n).
    + rewrite Z.mod_small by lia.
      destruct (l !! Z.to_nat i) eqn:E.
      * by rewrite (list_lookup_total_correct _ _ _ E).
      * apply lookup_ge_None in E. lia.
    + destruct (l !! Z.to_nat i) eqn:E; [|done].
      apply lookup_lt_Some in E. lia.
Qed.

Lemma read_sensor_data_answered w r ins cfg registers :
  read_registers w r ins (REGISTER_ADDRESS cfg) (NUMBER_OF_REGISTERS cfg)
    (FUNCTION_CODE cfg) = Ok registers ->
  let n := Z.of_nat (length registers) in
  let i := default 0%Z (REGISTER_INDEX_TO_LOG cfg) in
  read_sensor_data w r ins cfg
  = Ok (if ((- n <=? i) && (i <? n))%Z then
          let raw_value := registers !!! Z.to_nat (i mod n) in
          match scale_function cfg with
          | Some f => match f raw_value with Ok v => Some v | Raise _ => None end
          | None => Some (PrimFloat.mul (float_of_Z raw_value) (SCALE_FACTOR cfg))
          end
        else None).
Proof.
  intros Hreg n i. unfold read_sensor_data. rewrite Hreg. cbn [bind].
  fold i. rewrite py_index_in_range. fold n.
  destruct ((- n <=? i) && (i <? n))%Z; [|done]. cbn [bind]. cbv zeta.
  destruct (scale_function cfg) as [f|]; [|done].
  by destruct (f _).
Qed.

(** X10.  When the exchange answers, the value logged is the scaled register at
    [REGISTER_INDEX_TO_LOG], register 0 when the key is absent; a negative
    index counts from the end of the block; an index outside the block, or
    a scale function that raises, gives [None]. *)
Theorem read_sensor_data_index (w : world) (r : nat) (ins : instrument)
    (cfg : sensor_config) (registers : list Z) :
  read_registers w r ins (REGISTER_ADDRESS cfg) (NUMBER_OF_REGISTERS cfg)
    (FUNCTION_CODE cfg) = Ok registers ->
  let n := Z.of_nat (length registers) in
  let i := default 0%Z (REGISTER_INDEX_TO_LOG cfg) in
  read_sensor_data w r ins cfg
  = Ok (if ((- n <=? i) && (i <? n))%Z then
          let raw_value := registers !!! Z.to_nat (i mod n) in
          match scale_function cfg with
          | Some f => match f raw_value with Ok v => Some v | Raise _ => None end
          | None => Some (PrimFloat.mul (float_of_Z raw_value) (SCALE_FACTOR cfg))
          end
        else None).
Proof. apply read_sensor_data_answered. Qed.

Lemma read_sensor_data_index_witness :
  let registers := [0; 2024]%Z in
  let n := Z.of_nat (length registers) in
  let i := default 0%Z (REGISTER_INDEX_TO_LOG last_register_sensor) in
  read_sensor_data bench_world 0 sample_instrument last_register_sensor
  = Ok (if ((- n <=? i) && (i <? n))%Z then
          let raw_value := registers !!! Z.to_nat (i mod n) in
          match scale_function last_register_sensor with
          | Some f => match f raw_value with Ok v => Some v | Raise _ => None end
          | None => Some (PrimFloat.mul (float_of_Z raw_value)
                            (SCALE_FACTOR last_register_sensor))
          end
        else None).
Proof.
  apply (read_sensor_data_index bench_world 0 sample_instrument last_register_sensor
           [0; 2024]%Z).
  reflexivity.
Defined.

(** ** Reading every sensor of a round *)

(** X22.  The reads of a round never raise and give a vector with one entry
    per instrument, in the order of the instruments.  The entry of an
    instrument whose exchange raises, whatever the exception, is [None];
    the entry of an instrument whose exchange answers is the scaled
    register at its index ([None] for an index outside the block or a
    scale function that raises).  An entry depends on the exchange of its
    own instrument in this round only. *)
Theorem round_reads_every_instrument (w : world) (r : nat) (items : list item) :
  exists values,
    read_all w r items = Ok values /\
    length values = length items /\
    forall pos it, items !! pos = Some it ->
      let cfg := item_config it in
      values !! pos
      = Some
          match read_registers w r (item_instrument it) (REGISTER_ADDRESS cfg)
                  (NUMBER_OF_REGISTERS cfg) (FUNCTION_CODE cfg) with
          | Raise _ => None
          | Ok registers =>
              let n := Z.of_nat (length registers) in
              let i := default 0%Z (REGISTER_INDEX_TO_LOG cfg) in
              if ((- n <=? i) && (i <? n))%Z then
                let raw_value := registers !!! Z.to_nat (i mod n) in
                match scale_function cfg with
                | Some f => match f raw_value with Ok v => Some v | Raise _ => None end
                | None => Some (PrimFloat.mul (float_of_Z raw_value) (SCALE_FACTOR cfg))
                end
              else None
          end.
Proof.
  destruct (read_all_complete w r items) as (values & Hv & Hlen & Hnth).
  exists values. split; [done|]. split; [done|].
  intros pos it Hit cfg. rewrite (Hnth pos it Hit). fold cfg. f_equal.
  destruct (read_registers w r (item_instrument it) (REGISTER_ADDRESS cfg)
              (NUMBER_OF_REGISTERS cfg) (FUNCTION_CODE cfg)) as [registers|e] eqn:Hreg.
  - by rewrite (read_sensor_data_answered w r (item_instrument it) cfg registers Hreg).
  - by rewrite (read_sensor_data_failure w r (item_instrument it) cfg e Hreg).
Qed.

(** ** Writing the log *)

(** X11.  Whatever goes wrong in a write, the log only grows: it is left as it
    was, or it is the old content followed by a part of what was to be
    written, the header first and only in a file that did not exist.  A
    call that returns with rows to write has written all of them. *)
Theorem write_to_csv_appends (flt : fault) (rows : list row) (f : file)
    (header : row) :
  let res := (write_to_csv flt rows f header).1 in
  let f' := (write_to_csv flt rows f header).2 in
  (f' = f \/
   exists content,
     f' = Some content /\
     default [] f `prefix_of` content /\
     content `prefix_of` with_header f header ++ rows) /\
  (res = Ok tt -> rows <> [] -> f' = Some (with_header f header ++ rows)).
Proof.
  cbv zeta. split.
  2:{ intros Hres Hne. apply (write_to_csv_returns flt rows f header); [done|].
      destruct (write_to_csv flt rows f header) as [res f']. cbn [fst snd] in *.
      by subst. }
  unfold write_to_csv.
  destruct rows as [|row0 rows]; [by left|].
  cbn [is_empty]. set (data := row0 :: rows).
  assert (Hsome : forall old n,
            old `prefix_of` old ++ take n data /\
            old ++ take n data `prefix_of` old ++ data).
  { intros old n. split; [by apply prefix_app_r|apply prefix_app, prefix_take]. }
  assert (Hall : forall old : list row, old `prefix_of` old ++ data)
    by (intros old; by apply prefix_app_r).
  destruct flt, f as [old|];
    cbn [open_for_reading fst snd default with_header app id];
    try (by left).
  - right. eexists. split; [done|]. split; [apply Hall|done].
  - right. eexists. split; [done|]. split; [apply prefix_nil|done].
  - destruct (n <? length data)%nat; cbn [fst snd]; right; eexists;
      (split; [done|]); [apply Hsome|split; [apply Hall|done]].
  - destruct (n <? length (header :: data))%nat; cbn [fst snd]; right; eexists;
      (split; [done|]); (split; [apply prefix_nil|]); [apply prefix_take|done].
Qed.

(** X12.  Without a fault, writing in two batches leaves the file that one write
    of all the rows leaves: the content of the log does not depend on when
    the buffer is flushed. *)
Theorem write_to_csv_batches (rows1 rows2 : list row) (f : file) (header : row) :
  (write_to_csv NoFault rows2 (write_to_csv NoFault rows1 f header).2 header).2
  = (write_to_csv NoFault (rows1 ++ rows2) f header).2.
Proof.
  destruct rows1 as [|r1 rows1]; [done|].
  rewrite (write_to_csv_no_fault (r1 :: rows1)) by done.
  rewrite (write_to_csv_no_fault ((r1 :: rows1) ++ rows2)) by done. cbn [snd].
  destruct rows2 as [|r2 rows2].
  - by rewrite write_to_csv_nothing, app_nil_r.
  - rewrite write_to_csv_no_fault by done. cbn [snd with_header].
    by rewrite <- app_assoc.
Qed.

(** ** What a step does to the trace *)

Lemma emitted_app tr tr' : emitted (tr ++ tr') = emitted tr ++ emitted tr'.
Proof. apply omap_app. Qed.

Lemma closed_ports_app tr tr' :
  closed_ports (tr ++ tr') = closed_ports tr ++ closed_ports tr'.
Proof. apply omap_app. Qed.

(** ** Set-up *)

Lemma emitted_setup (made : list (nat * setting)) (m : message) :
  emitted (map (fun a => SerialSet a.1 a.2) made ++ [Printed m]) = [].
Proof. unfold emitted. induction made as [|a made IH]; [done|]. exact IH. Qed.

Lemma closed_ports_setup (made : list (nat * setting)) (m : message) :
  closed_ports (map (fun a => SerialSet a.1 a.2) made ++ [Printed m]) = [].
Proof. unfold closed_ports. induction made as [|a made IH]; [done|]. exact IH. Qed.

Lemma assigned_to_app h tr tr' :
  assigned_to h (tr ++ tr') = assigned_to h tr ++ assigned_to h tr'.
Proof. apply omap_app. Qed.

Lemma assigned_to_setup h h' (l : list setting) (m : message) :
  assigned_to h (map (fun a => SerialSet a.1 a.2) (map (pair h') l) ++ [Printed m])
  = if decide (h' = h) then l else [].
Proof.
  unfold assigned_to. induction l as [|x l IH].
  - by destruct (decide (h' = h)).
  - cbn [map app omap list_omap fst snd] in *.
    destruct (decide (h' = h)); [by rewrite IH|exact IH].
Qed.

(** The assignments one pass of the set-up loop makes to a serial object. *)
Lemma setup_one_assigned w pos cfg st h :
  assigned_to h (trace (setup_one w pos cfg st))
  = assigned_to h (trace st)
    ++ match open_port w pos cfg with
       | Ok h' =>
           if decide (h' = h) then
             match settings_fault w pos cfg with
             | None => serial_assignments cfg
             | Some (n, _) => take n (serial_assignments cfg)
             end
           else []
       | Raise _ => []
       end.
Proof.
  unfold setup_one, setup_minimalmodbus_instrument.
  destruct (open_port w pos cfg) as [h'|e];
    [destruct (settings_fault w pos cfg) as [[n e]|]|];
    cbn [trace emit set_instruments set_open_ports]; rewrite assigned_to_app; f_equal;
    first [apply assigned_to_setup | done].
Qed.

Lemma setup_one_ports w pos cfg st :
  let st' := setup_one w pos cfg st in
  open_ports st ⊆ open_ports st' /\
  (forall h, open_port w pos cfg = Ok h -> h ∈ open_ports st') /\
  (Forall (fun it => serial (item_instrument it) ∈ open_ports st
                     /\ address (item_instrument it) = SLAVE_ADDRESS (item_config it)
                     /\ mode (item_instrument it) = MODE_RTU)
     (instruments st) ->
   Forall (fun it => serial (item_instrument it) ∈ open_ports st'
                     /\ address (item_instrument it) = SLAVE_ADDRESS (item_config it)
                     /\ mode (item_instrument it) = MODE_RTU)
     (instruments st')) /\
  emitted (trace st') = emitted (trace st) /\
  closed_ports (trace st') = closed_ports (trace st).
Proof.
  unfold setup_one, setup_minimalmodbus_instrument.
  destruct (open_port w pos cfg) as [h|e];
    [destruct (settings_fault w pos cfg) as [[n e]|]|];
    cbn [open_ports instruments trace emit set_instruments set_open_ports];
    rewrite emitted_app, closed_ports_app, emitted_setup, closed_ports_setup,
      !app_nil_r.
  - split; [apply union_subseteq_r|]. split.
    { intros h' [= <-]. apply elem_of_union_l, elem_of_singleton. done. }
    split; [|done].
    intros Hall. eapply Forall_impl; [exact Hall|]. cbn beta. intros it [Hin Hcfg].
    split; [by apply elem_of_union_r|done].
  - split; [apply union_subseteq_r|]. split.
    { intros h' [= <-]. apply elem_of_union_l, elem_of_singleton. done. }
    split; [|done].
    intros Hall. apply Forall_app. split.
    + eapply Forall_impl; [exact Hall|]. cbn beta. intros it [Hin Hcfg].
      split; [by apply elem_of_union_r|done].
    + apply Forall_singleton. cbn [item_instrument item_config serial address mode].
      split; [apply elem_of_union_l, elem_of_singleton; done|done].
  - by repeat split.
Qed.

Lemma setup_from_ports w cfgs : forall pos st,
  let st' := setup_from w pos cfgs st in
  open_ports st ⊆ open_ports st' /\
  (forall i cfg h, cfgs !! i = Some cfg -> open_port w (pos + i) cfg = Ok h ->
                   h ∈ open_ports st') /\
  (Forall (fun it => serial (item_instrument it) ∈ open_ports st
                     /\ address (item_instrument it) = SLAVE_ADDRESS (item_config it)
                     /\ mode (item_instrument it) = MODE_RTU)
     (instruments st) ->
   Forall (fun it => serial (item_instrument it) ∈ open_ports st'
                     /\ address (item_instrument it) = SLAVE_ADDRESS (item_config it)
                     /\ mode (item_instrument it) = MODE_RTU)
     (instruments st')) /\
  emitted (trace st') = emitted (trace st) /\
  closed_ports (trace st') = closed_ports (trace st).
Proof.
  induction cfgs as [|cfg cfgs IH]; intros pos st; cbn [setup_from].
  - by repeat split.
  - destruct (setup_one_ports w pos cfg st) as (K1 & K2 & K3 & K5 & K6).
    destruct (IH (S pos) (setup_one w pos cfg st)) as (H1 & H2 & H3 & H5 & H6).
    cbv zeta in *. split; [by etrans|]. split.
    { intros [|i] c h Hi Hopen.
      - injection Hi as ->. rewrite Nat.add_0_r in Hopen. apply H1. by apply K2.
      - apply (H2 i c h Hi). by replace (S pos + i)%nat with (pos + S i)%nat by lia. }
    split; [intros Hall; by apply H3, K3|].
    by rewrite H5, H6, K5, K6.
Qed.

(** X13.  After the set-up the ports open before are still open, and every
    port that [Instrument(...)] opened is recorded open, also when the
    set-up raised afterwards, so that a port can be open without an
    instrument.  Each instrument sits on an open port, with the slave
    address of its configuration and in RTU mode; the instruments are the
    configurations whose set-up succeeded, in order; nothing has been
    emitted or closed. *)
Theorem setup_instruments_opens (w : world) (cfgs : list sensor_config)
    (fname : string) (header : row) (ports : gset nat) (d : file) :
  let st := setup_instruments w (SensorReader cfgs fname header ports d) in
  ports ⊆ open_ports st /\
  (forall pos cfg h, cfgs !! pos = Some cfg -> open_port w pos cfg = Ok h ->
                     h ∈ open_ports st) /\
  Forall (fun it => serial (item_instrument it) ∈ open_ports st
                    /\ address (item_instrument it) = SLAVE_ADDRESS (item_config it)
                    /\ mode (item_instrument it) = MODE_RTU)
    (instruments st) /\
  map item_config (instruments st) = configured w 0 cfgs /\
  emitted (trace st) = [] /\
  closed_ports (trace st) = [].
Proof.
  destruct (setup_from_ports w cfgs 0 (SensorReader cfgs fname header ports d))
    as (H1 & H2 & H3 & H4 & H5).
  cbv zeta. split; [exact H1|]. split; [exact H2|].
  split; [apply H3; by apply Forall_nil|].
  split; [apply setup_instruments_configured|]. split; [exact H4|exact H5].
Qed.

Lemma setup_from_untouched w h cfgs : forall pos st,
  (forall j cfg, cfgs !! j = Some cfg -> open_port w (pos + j) cfg <> Ok h) ->
  assigned_to h (trace (setup_from w pos cfgs st)) = assigned_to h (trace st).
Proof.
  induction cfgs as [|cfg cfgs IH]; intros pos st Hno; cbn [setup_from]; [done|].
  rewrite IH.
  - rewrite setup_one_assigned.
    pose proof (Hno 0%nat cfg eq_refl) as H0. rewrite Nat.add_0_r in H0.
    destruct (open_port w pos cfg) as [h'|e]; [|by rewrite app_nil_r].
    destruct (decide (h' = h)) as [->|_]; [done|by rewrite app_nil_r].
  - intros j c Hj. specialize (Hno (S j) c Hj).
    by replace (S pos + j)%nat with (pos + S j)%nat by lia.
Qed.

Lemma setup_from_last_assigned w h cfgs : forall pos st i cfg,
  cfgs !! i = Some cfg ->
  open_port w (pos + i) cfg = Ok h ->
  settings_fault w (pos + i) cfg = None ->
  (forall j cfg', (i < j)%nat -> cfgs !! j = Some cfg' ->
     open_port w (pos + j) cfg' <> Ok h) ->
  serial_assignments cfg `suffix_of` assigned_to h (trace (setup_from w pos cfgs st)).
Proof.
  induction cfgs as [|c cfgs IH]; intros pos st i cfg Hi Hopen Hset Hlater; [done|].
  cbn [setup_from]. destruct i as [|i].
  - injection Hi as ->. rewrite Nat.add_0_r in Hopen, Hset.
    rewrite setup_from_untouched.
    + rewrite setup_one_assigned, Hopen, Hset. rewrite decide_True by done.
      by apply suffix_app_r.
    + intros j c' Hj. replace (S pos + j)%nat with (pos + S j)%nat by lia.
      apply (Hlater (S j) c'); [lia|done].
  - apply (IH (S pos) _ i cfg Hi).
    + by replace (S pos + i)%nat with (pos + S i)%nat by lia.
    + by replace (S pos + i)%nat with (pos + S i)%nat by lia.
    + intros j c' Hj Hc'. replace (S pos + j)%nat with (pos + S j)%nat by lia.
      apply (Hlater (S j) c'); [lia|done].
Qed.

(** X21.  The serial settings belong to the serial object, which the
    instruments of a port share: after the set-up, the last assignments
    made to a serial object are the five settings of the last
    configuration that was set up on it.  An instrument set up earlier on
    the same object works with those settings, whatever its own
    configuration says. *)
Theorem shared_serial_settings (w : world) (cfgs : list sensor_config)
    (fname : string) (header : row) (ports : gset nat) (d : file)
    (pos : nat) (cfg : sensor_config) (h : nat) :
  cfgs !! pos = Some cfg ->
  open_port w pos cfg = Ok h ->
  settings_fault w pos cfg = None ->
  (forall later cfg', (pos < later)%nat -> cfgs !! later = Some cfg' ->
     open_port w later cfg' <> Ok h) ->
  let st := setup_instruments w (SensorReader cfgs fname header ports d) in
  serial_assignments cfg `suffix_of` assigned_to h (trace st).
Proof.
  intros Hpos Hopen Hset Hlater st.
  by apply (setup_from_last_assigned w h cfgs 0 _ pos cfg).
Qed.

Lemma shared_serial_settings_witness :
  let st := setup_instruments bench_world
              (SensorReader (SENSORS ++ [slow_sensor])
                 "sensor_data_20240101_100000.csv" CSV_HEADER ∅ None) in
  serial_assignments slow_sensor `suffix_of` assigned_to 7 (trace st).
Proof.
  apply (shared_serial_settings bench_world (SENSORS ++ [slow_sensor])
           "sensor_data_20240101_100000.csv" CSV_HEADER ∅ None 2 slow_sensor 7);
    [reflexivity | reflexivity | reflexivity |].
  intros [|[|[|later]]] cfg' Hlt Hl; try lia; discriminate.
Defined.

(** ** Closing the ports *)

(** X14.  The closing loop closes each open serial object of the instruments
    once, also when several instruments share it, and touches no other
    port. *)
Theorem close_ports_once (items : list item) (st : state) :
  let st' := close_ports items st in
  open_ports st' = open_ports st ∖ list_to_set (handles items) /\
  exists hs,
    closed_ports (trace st') = closed_ports (trace st) ++ hs /\
    NoDup hs /\
    forall h, h ∈ hs <-> h ∈ open_ports st /\ h ∈ handles items.
Proof.
  cbv zeta. revert st. induction items as [|it items IH]; intros st.
  - cbn [close_ports handles map list_to_set]. split; [by rewrite difference_empty_L|].
    exists []. rewrite app_nil_r. split; [done|]. split; [constructor|].
    intros h. rewrite !elem_of_nil. tauto.
  - cbn [close_ports handles map list_to_set]. fold (handles items).
    set (h0 := serial (item_instrument it)).
    case_bool_decide as Hopen.
    + destruct (IH (emit [PortClosed h0; Printed (MsgClosedPort (NAME (item_config it)))]
                      (set_open_ports (open_ports st ∖ {[h0]}) st)))
        as (Ho & hs & Htr & Hnd & Hhs).
      cbn [open_ports trace emit set_open_ports] in Ho, Htr, Hhs.
      split; [by rewrite Ho, difference_difference_l_L|].
      exists (h0 :: hs). split.
      { rewrite Htr, closed_ports_app. cbn. by rewrite <- app_assoc. }
      split.
      { constructor; [|done]. intros Hin. apply Hhs in Hin as [Hin _].
        apply elem_of_difference in Hin as [_ Hn]. by apply Hn, elem_of_singleton. }
      intros h. rewrite !elem_of_cons, Hhs, elem_of_difference, elem_of_singleton.
      destruct (decide (h = h0)) as [->|Hne]; tauto.
    + destruct (IH st) as (Ho & hs & Htr & Hnd & Hhs).
      split.
      { rewrite Ho. apply set_eq. intros x.
        rewrite !elem_of_difference, elem_of_union, elem_of_singleton.
        split; intros [Hx Hn]; (split; [done|]).
        - intros [->|Hs]; [by apply Hopen|by apply Hn].
        - intros Hs. apply Hn. by right. }
      exists hs. split; [done|]. split; [done|].
      intros h. rewrite Hhs, elem_of_cons. split; [tauto|].
      intros [Hin [->|Hh]]; [by destruct Hopen|tauto].
Qed.

(** ** What the rounds leave alone *)

Lemma rounds_executed_emitted tr : rounds_executed tr = length (emitted tr).
Proof.
  unfold rounds_executed, emitted. induction tr as [|ev tr IH]; [done|].
  cbn [List.filter omap list_omap]. destruct ev; cbn [length]; by rewrite ?IH.
Qed.

Lemma values_at_length w r items : length (values_at w r items) = length items.
Proof.
  unfold values_at. destruct (read_all_complete w r items) as (values & -> & Hl & _).
  done.
Qed.

Lemma sample_round_frame w r start st :
  let o := (sample_round w r start st).1 in
  instruments (state_of o) = instruments st /\
  open_ports (state_of o) = open_ports st /\
  closed_ports (trace (state_of o)) = closed_ports (trace st) /\
  emitted (trace (state_of o))
  = emitted (trace st) ++ [values_at w r (instruments st)] /\
  (forall e st', o = Raised e st' -> io_fault w r <> NoFault).
Proof.
  destruct (sample_round_cases w r start st) as (values & Hv & Hcases).
  cbv zeta in *. unfold values_at. rewrite Hv.
  destruct (flush_due _ _).
  - destruct (write_to_csv _ _ _ _) as [[[]|e] d] eqn:Hw; rewrite Hcases;
      cbn [fst state_of instruments open_ports trace emit set_readings_buffer set_disk];
      rewrite ?closed_ports_app, ?emitted_app; cbn; rewrite ?app_nil_r;
      repeat split; try done.
    intros e' st' _. by apply write_to_csv_raises in Hw as [_ Hw].
  - rewrite Hcases.
    cbn [fst state_of instruments open_ports trace emit set_readings_buffer].
    rewrite closed_ports_app, emitted_app. cbn. rewrite app_nil_r.
    by repeat split.
Qed.

Lemma sampling_loop_frame w k : forall r start st,
  let o := sampling_loop w k r start st in
  instruments (state_of o) = instruments st /\
  open_ports (state_of o) = open_ports st /\
  closed_ports (trace (state_of o)) = closed_ports (trace st) /\
  (exists m, (m <= k)%nat /\
     emitted (trace (state_of o))
     = emitted (trace st)
       ++ map (fun r' => values_at w r' (instruments st)) (seq r m)) /\
  (forall e st', o = Raised e st' ->
     exists r', (r' < r + k)%nat /\ io_fault w r' <> NoFault).
Proof.
  induction k as [|k IH]; intros r start st; cbn [sampling_loop].
  - cbn [state_of stop set_running instruments open_ports trace].
    repeat split; try done. exists 0%nat. split; [lia|]. by rewrite app_nil_r.
  - destruct (_running st).
    2:{ cbn [state_of]. repeat split; try done.
        exists 0%nat. split; [lia|]. by rewrite app_nil_r. }
    destruct (sample_round_frame w r start st) as (K1 & K2 & K3 & K4 & K5).
    cbv zeta in *.
    destruct (sample_round w r start st) as [[st1|e st1] start'];
      cbn [fst state_of] in K1, K2, K3, K4, K5.
    + destruct (IH (S r) start' st1) as (H1 & H2 & H3 & (m & Hm & H4) & H5).
      rewrite H1, H2, H3, K1, K2, K3. repeat split.
      * exists (S m). split; [lia|]. rewrite H4, K4, K1, <- app_assoc. done.
      * intros e st' Hr. destruct (H5 e st' Hr) as (r' & Hr' & Hio).
        exists r'. split; [lia|done].
    + cbn [state_of]. repeat split; try done.
      * exists 1%nat. split; [lia|]. by rewrite K4.
      * intros e' st' _. exists r. split; [lia|]. by apply (K5 e st1).
Qed.

Lemma close_ports_instruments items : forall st,
  instruments (close_ports items st) = instruments st.
Proof.
  induction items as [|it items IH]; intros st; cbn [close_ports]; [done|].
  case_bool_decide; by rewrite IH.
Qed.

Lemma emitted_close_events closes :
  forallb is_close_event closes = true -> emitted closes = [].
Proof.
  induction closes as [|ev closes IH]; [done|]. cbn [forallb].
  intros H. apply andb_true_iff in H as [Hev H].
  unfold emitted in *. cbn [omap list_omap].
  destruct ev; try discriminate; by apply IH.
Qed.

Lemma cleanup_frame w k st :
  let o := cleanup w k st in
  instruments (state_of o) = instruments st /\
  emitted (trace (state_of o)) = emitted (trace st) /\
  (forall e st', o = Raised e st' ->
     io_fault w k <> NoFault /\
     open_ports st' = open_ports st /\
     closed_ports (trace st') = closed_ports (trace st)).
Proof.
  cbv zeta. unfold cleanup.
  cbn [readings_buffer disk csv_header emit instruments trace].
  set (st1 := emit [Printed MsgStopping] st).
  assert (Hclose : forall st2,
            instruments st2 = instruments st ->
            emitted (trace st2) = emitted (trace st) ->
            instruments (close_ports (instruments st2) st2) = instruments st /\
            emitted (trace (close_ports (instruments st2) st2)) = emitted (trace st)).
  { intros st2 Hi He. rewrite close_ports_instruments. split; [done|].
    destruct (close_ports_trace (instruments st2) st2) as (closes & -> & Hc).
    by rewrite emitted_app, (emitted_close_events closes Hc), app_nil_r. }
  assert (He1 : emitted (trace st1) = emitted (trace st)).
  { subst st1. cbn [trace emit]. rewrite emitted_app. cbn. by rewrite app_nil_r. }
  destruct (is_empty (readings_buffer st)).
  { cbn [state_of]. destruct (Hclose st1 eq_refl He1) as [-> ->]. by repeat split. }
  destruct (write_to_csv _ _ _ _) as [[[]|e] d] eqn:Hw; cbn [state_of].
  - match goal with |- context [close_ports _ ?s] => destruct (Hclose s) as [-> ->] end.
    + done.
    + cbn [trace emit set_disk]. rewrite !emitted_app. cbn. by rewrite !app_nil_r.
    + by repeat split.
  - cbn [instruments trace set_disk emit]. split; [done|]. split; [exact He1|].
    intros e' st' [= <- <-]. apply write_to_csv_raises in Hw as [_ Hw].
    split; [done|]. subst st1. cbn [open_ports trace set_disk emit]. split; [done|].
    rewrite closed_ports_app. cbn. by rewrite app_nil_r.
Qed.

(** The vectors a fresh reader emits in a run are those of the rounds it
    began, in order; a run that returns with instruments has begun all of
    them. *)
Lemma run_emitted w cfgs fname header ports d :
  let st0 := setup_instruments w (SensorReader cfgs fname header ports d) in
  let o := run w (SensorReader cfgs fname header ports d) in
  exists m, (m <= rounds_before_stop w)%nat /\
    emitted (trace (state_of o))
    = map (fun r => values_at w r (instruments st0)) (seq 0 m) /\
    (forall st2, o = Returned st2 -> instruments st0 <> [] ->
                 m = rounds_before_stop w).
Proof.
  intros st0 o. subst o. unfold run. fold st0.
  destruct (setup_from_ports w cfgs 0 (SensorReader cfgs fname header ports d))
    as (_ & _ & _ & He0 & _).
  pose proof (setup_from_keeps w cfgs 0 (SensorReader cfgs fname header ports d)) as Hk.
  cbv zeta in He0, Hk. destruct Hk as (_ & _ & Hrun & _).
  change (setup_from w 0 cfgs (SensorReader cfgs fname header ports d)) with st0
    in He0, Hrun.
  cbn [SensorReader trace _running] in He0, Hrun. change (emitted []) with
    (@nil (list (option float))) in He0.
  destruct (instruments st0) as [|it0 items0] eqn:Hins.
  { cbn [is_empty state_of trace set_running emit]. exists 0%nat. split; [lia|].
    rewrite emitted_app, He0. split; [done|]. by intros. }
  cbn [is_empty]. rewrite <- Hins.
  set (st := emit [Printed (MsgThreadStarted (csv_filename st0))] st0).
  assert (Hst : emitted (trace st) = []).
  { subst st. cbn [trace emit]. by rewrite emitted_app, He0. }
  destruct (sampling_loop_frame w (rounds_before_stop w) 0 (clock_start w) st)
    as (L1 & _ & _ & (m & Hm & L4) & _).
  cbv zeta in *. rewrite Hst in L4. cbn [app] in L4.
  change (instruments st) with (instruments st0) in L1, L4.
  destruct (sampling_loop w (rounds_before_stop w) 0 (clock_start w) st)
    as [st1|e st1] eqn:Hloop; cbn [state_of] in L1, L4.
  - destruct (cleanup_frame w (rounds_before_stop w) st1) as (C1 & C2 & _).
    cbv zeta in C1, C2. exists m. split; [done|]. rewrite C2, L4. split; [done|].
    intros _ _ _.
    destruct (sampling_loop_returned w _ 0 (clock_start w) st st1 Hrun Hloop)
      as (_ & _ & _ & _ & Hn).
    rewrite !rounds_executed_emitted, Hst, L4, length_map, length_seq in Hn.
    exact Hn.
  - cbn [state_of]. exists m. split; [done|]. split; [done|]. by intros.
Qed.

(** ** A run that ends in an exception *)

(** X16.  [run] can only be left by an exception of a write to the log.  It then
    skips the closing loop: every instrument still sits on an open port
    and nothing has been closed. *)
Theorem failed_run_leaves_ports_open (w : world) (cfgs : list sensor_config)
    (fname : string) (header : row) (ports : gset nat) (d : file)
    (e : exn) (st' : state) :
  run w (SensorReader cfgs fname header ports d) = Raised e st' ->
  (exists r, (r <= rounds_before_stop w)%nat /\ io_fault w r <> NoFault) /\
  instruments st' <> [] /\
  Forall (fun it => serial (item_instrument it) ∈ open_ports st') (instruments st') /\
  closed_ports (trace st') = [].
Proof.
  unfold run.
  set (st0 := setup_instruments w (SensorReader cfgs fname header ports d)).
  destruct (setup_from_ports w cfgs 0 (SensorReader cfgs fname header ports d))
    as (_ & _ & Hopen & _ & Hc0).
  cbv zeta in Hopen, Hc0.
  change (setup_from w 0 cfgs (SensorReader cfgs fname header ports d)) with st0
    in Hopen, Hc0.
  specialize (Hopen ltac:(by apply Forall_nil)).
  cbn [SensorReader trace] in Hc0. change (closed_ports []) with (@nil nat) in Hc0.
  destruct (instruments st0) as [|it0 items0] eqn:Hins; [discriminate|].
  cbn [is_empty]. rewrite <- Hins in *.
  assert (Hne : instruments st0 <> []) by (by rewrite Hins).
  set (st := emit [Printed (MsgThreadStarted (csv_filename st0))] st0).
  assert (Hst : closed_ports (trace st) = []).
  { subst st. cbn [trace emit]. by rewrite closed_ports_app, Hc0. }
  assert (Hports : Forall (fun it => serial (item_instrument it) ∈ open_ports st0)
                     (instruments st0)).
  { eapply Forall_impl; [exact Hopen|]. cbn beta. by intros it [? _]. }
  destruct (sampling_loop_frame w (rounds_before_stop w) 0 (clock_start w) st)
    as (L1 & L2 & L3 & _ & L5).
  cbv zeta in *.
  change (instruments st) with (instruments st0) in L1.
  change (open_ports st) with (open_ports st0) in L2.
  destruct (sampling_loop w (rounds_before_stop w) 0 (clock_start w) st)
    as [st1|e1 st1] eqn:Hloop; cbn [state_of] in L1, L2, L3.
  - intros Hc.
    destruct (cleanup_frame w (rounds_before_stop w) st1) as (C1 & _ & C3).
    cbv zeta in C1, C3. rewrite Hc in C1. cbn [state_of] in C1.
    destruct (C3 e st' Hc) as (Hio & Ho & Hcl).
    split; [exists (rounds_before_stop w); split; [lia|done]|].
    rewrite C1, L1, Ho, L2, Hcl, L3. by repeat split.
  - intros [= <- <-].
    destruct (L5 e1 st1 eq_refl) as (r' & Hr' & Hio).
    split; [exists r'; split; [lia|done]|].
    rewrite L1, L2, L3. by repeat split.
Qed.

Lemma failed_run_leaves_ports_open_witness :
  let st' := state_of (run denied_world sample_reader) in
  (exists r, (r <= rounds_before_stop denied_world)%nat
             /\ io_fault denied_world r <> NoFault) /\
  instruments st' <> [] /\
  Forall (fun it => serial (item_instrument it) ∈ open_ports st') (instruments st') /\
  closed_ports (trace st') = [].
Proof.
  apply (failed_run_leaves_ports_open denied_world SENSORS
           "sensor_data_20240101_100000.csv" CSV_HEADER ∅ None PermissionError).
  vm_compute. reflexivity.
Defined.

(** ** What is shown is what is logged *)

Lemma zip_with_map_same {A B C} (g : A -> B -> C) (f : A -> B) (l : list A) :
  zip_with g l (map f l) = map (fun x => g x (f x)) l.
Proof. induction l as [|x l IH]; [done|]. cbn. by rewrite IH. Qed.

(** X17.  In a run without I/O faults that starts without a log file, the rows
    of the log are the vectors sent to the display, one per round and in
    the same order, each behind the timestamp of its round; every vector
    has one entry per instrument. *)
Theorem emitted_vectors_logged (w : world) (cfgs : list sensor_config)
    (fname : string) (header : row) (ports : gset nat) :
  let st0 := setup_instruments w (SensorReader cfgs fname header ports None) in
  (forall i, io_fault w i = NoFault) ->
  instruments st0 <> [] ->
  exists st2,
    run w (SensorReader cfgs fname header ports None) = Returned st2 /\
    length (emitted (trace st2)) = rounds_before_stop w /\
    Forall (fun values => length values = length (instruments st0))
      (emitted (trace st2)) /\
    disk st2
    = match emitted (trace st2) with
      | [] => None
      | vectors =>
          Some (header
                :: zip_with (fun r values => FStr (now w r) :: map field_of values)
                     (seq 0 (length vectors)) vectors)
      end.
Proof.
  intros st0 Hio Hins.
  destruct (run_log_complete w cfgs fname header ports Hio Hins) as (st2 & Hrun & Hdisk).
  fold st0 in Hdisk.
  destruct (run_emitted w cfgs fname header ports None) as (m & _ & Hem & Hm).
  cbv zeta in Hem, Hm. fold st0 in Hem, Hm. rewrite Hrun in Hem, Hm.
  cbn [state_of] in Hem. specialize (Hm st2 eq_refl Hins). subst m.
  exists st2. split; [done|]. rewrite Hem, length_map, length_seq.
  split; [done|]. split.
  { apply Forall_fmap, Forall_forall. intros r _. unfold compose.
    apply values_at_length. }
  rewrite Hdisk. unfold rows_of.
  destruct (rounds_before_stop w) as [|k]; [done|].
  set (vectors := map (fun r => values_at w r (instruments st0)) (seq 0 (S k))).
  assert (Hv : vectors <> []) by done.
  assert (Hrows : map (fun r => round_row w r (values_at w r (instruments st0)))
                    (seq 0 (S k))
                  = zip_with (fun r values => FStr (now w r) :: map field_of values)
                      (seq 0 (length vectors)) vectors).
  { subst vectors. rewrite length_map, length_seq. by rewrite zip_with_map_same. }
  rewrite Hrows. by destruct vectors.
Qed.

Lemma emitted_vectors_logged_witness :
  exists st2,
    run bench_world sample_reader = Returned st2 /\
    length (emitted (trace st2)) = rounds_before_stop bench_world /\
    Forall (fun values =>
              length values
              = length (instruments (setup_instruments bench_world sample_reader)))
      (emitted (trace st2)) /\
    disk st2
    = match emitted (trace st2) with
      | [] => None
      | vectors =>
          Some (CSV_HEADER
                :: zip_with (fun r values =>
                               FStr (now bench_world r) :: map field_of values)
                     (seq 0 (length vectors)) vectors)
      end.
Proof.
  apply (emitted_vectors_logged bench_world SENSORS
           "sensor_data_20240101_100000.csv" CSV_HEADER ∅);
    [reflexivity | discriminate].
Defined.

End ReaderFacts.

(** * The window of modviz5.py *)
Module WindowFacts.
Import Live Display Samples LiveFacts ReaderFacts.

Lemma deque_append_length {A} (m : nat) (d : list A) (x : A) :
  length (deque_append m d x) = Nat.min (S (length d)) m.
Proof. unfold deque_append. cbv zeta. rewrite length_drop, !length_app. cbn [length]. lia. Qed.

Lemma deque_append_last_n {A} (m : nat) (d xs : list A) : forall x,
  length d <= m ->
  last_n m (deque_append m d x ++ xs) = last_n m (d ++ x :: xs).
Proof.
  intros x Hd. unfold deque_append, last_n.
  replace (d ++ x :: xs) with ((d ++ [x]) ++ xs) by (by rewrite <- app_assoc).
  set (L := d ++ [x]).
  assert (HL : length L <= S m) by (subst L; rewrite length_app; simpl; lia).
  rewrite <- (drop_app_le L xs (length L - m)) by lia.
  rewrite drop_drop. f_equal.
  rewrite !length_drop, !length_app. lia.
Qed.

Lemma fold_deque_append {A} (m : nat) (xs : list A) : forall d,
  length d <= m ->
  fold_left (deque_append m) xs d = last_n m (d ++ xs).
Proof.
  induction xs as [|x xs IH]; intros d Hd; cbn [fold_left].
  - unfold last_n. rewrite app_nil_r.
    replace (length d - m) with 0 by lia. done.
  - rewrite IH by (rewrite deque_append_length; lia).
    by apply deque_append_last_n.
Qed.


Lemma plotted_cons_0 v rest :
  plotted 0 (v :: rest) = Some (match v with Some x => x | None => PrimFloat.nan end).
Proof. by destruct v. Qed.

Lemma plotted_cons_S k v rest : plotted (S k) (v :: rest) = plotted k rest.
Proof. done. Qed.

Lemma update_from_spec values : forall i win,
  length (plot_curves win) = length (data_buffers win) ->
  let n := length (data_buffers win) in
  let res := (update_from i values win).1 in
  let win' := (update_from i values win).2 in
  length (data_buffers win') = n /\ length (plot_curves win') = n /\
  (i + length values <= n -> res = Ok tt) /\
  (n < i + length values -> values <> [] -> res = Raise IndexError) /\
  (forall j, data_buffers win' !! j
             = buffer_after i j values <$> data_buffers win !! j) /\
  (forall j buf c, data_buffers win !! j = Some buf -> plot_curves win !! j = Some c ->
             plot_curves win' !! j = Some (curve_after i j values buf c)).
Proof.
  induction values as [|v rest IH]; intros i win Hlen; cbv zeta.
  - cbn [update_from fst snd length]. repeat split; try done; try lia.
    + intros j. unfold buffer_after, plotted. rewrite lookup_nil.
      destruct (data_buffers win !! j); destruct (i <=? j)%nat; done.
    + intros j buf c _ Hc. unfold curve_after, plotted. rewrite lookup_nil.
      by destruct (i <=? j)%nat.
  - cbn [update_from].
    destruct (data_buffers win !! i) as [buffer|] eqn:Hi.
    2:{ apply lookup_ge_None in Hi. cbn [fst snd length].
        repeat split; try done; try lia.
        - intros j. unfold buffer_after.
          destruct (Nat.leb_spec i j); [|by destruct (data_buffers win !! j)].
          rewrite (proj2 (lookup_ge_None (data_buffers win) j)) by lia. done.
        - intros j buf c Hb. apply lookup_lt_Some in Hb. unfold curve_after.
          destruct (Nat.leb_spec i j); [lia|done]. }
    pose proof (lookup_lt_Some _ _ _ Hi) as Hin.
    set (appended := match v with
                     | Some x => deque_append PLOT_POINTS buffer x
                     | None => deque_append PLOT_POINTS buffer PrimFloat.nan
                     end).
    assert (Happ : appended
                   = deque_append PLOT_POINTS buffer
                       (match v with Some x => x | None => PrimFloat.nan end))
      by (by destruct v).
    cbn [plot_curves data_buffers].
    destruct (plot_curves win !! i) as [c0|] eqn:Hc0.
    2:{ apply lookup_ge_None in Hc0. lia. }
    set (win2 := {| plot_curves := _; data_buffers := _ |}).
    specialize (IH (S i) win2).
    assert (Hlen2 : length (plot_curves win2) = length (data_buffers win2))
      by (subst win2; cbn; by rewrite !length_insert).
    specialize (IH Hlen2). cbv zeta in IH.
    destruct IH as (I1 & I2 & I3 & I4 & I5 & I6).
    assert (Hn2 : length (data_buffers win2) = length (data_buffers win))
      by (subst win2; cbn; by rewrite length_insert).
    rewrite Hn2 in *. cbn [length].
    split; [done|]. split; [done|].
    split; [intros; apply I3; lia|].
    split.
    { intros Hn _. destruct rest as [|v' rest'].
      - simpl in Hn. lia.
      - apply I4; [simpl in *; lia|done]. }
    split.
    + intros j. rewrite I5. subst win2. cbn [data_buffers].
      unfold buffer_after.
      destruct (decide (j = i)) as [->|Hne].
      * rewrite list_lookup_insert_eq by done. rewrite Hi. cbn [fmap option_fmap option_map].
        destruct (Nat.leb_spec (S i) i); [lia|].
        rewrite Nat.leb_refl, Nat.sub_diag, plotted_cons_0. by rewrite Happ.
      * rewrite list_lookup_insert_ne by done.
        destruct (data_buffers win !! j) as [b|]; [|done].
        cbn [fmap option_fmap option_map]. f_equal.
        destruct (Nat.leb_spec (S i) j), (Nat.leb_spec i j); try lia; try done.
        replace (j - i) with (S (j - S i)) by lia. by rewrite plotted_cons_S.
    + intros j buf c Hb Hc. unfold curve_after.
      destruct (decide (j = i)) as [->|Hne].
      * rewrite (I6 i appended {| x_data := seq 0 (length appended); y_data := appended |}).
        2:{ subst win2. cbn. by rewrite list_lookup_insert_eq. }
        2:{ subst win2. cbn. rewrite list_lookup_insert_eq by lia. done. }
        unfold curve_after. destruct (Nat.leb_spec (S i) i); [lia|].
        rewrite Nat.leb_refl, Nat.sub_diag, plotted_cons_0.
        rewrite Hi in Hb. injection Hb as <-. cbv zeta. by rewrite <- Happ.
      * rewrite (I6 j buf c).
        2:{ subst win2. cbn. by rewrite list_lookup_insert_ne. }
        2:{ subst win2. cbn. by rewrite list_lookup_insert_ne. }
        unfold curve_after.
        destruct (Nat.leb_spec (S i) j), (Nat.leb_spec i j); try lia; try done.
        replace (j - i) with (S (j - S i)) by lia. by rewrite plotted_cons_S.
Qed.

Lemma last_n_length {A} (m : nat) (l : list A) : length (last_n m l) <= m.
Proof. unfold last_n. rewrite length_drop. lia. Qed.

Lemma last_n_short {A} (m : nat) (l : list A) : length l <= m -> last_n m l = l.
Proof. intros H. unfold last_n. by replace (length l - m) with 0 by lia. Qed.

Lemma update_plot_spec values win :
  shows_buffers win ->
  let n := length (data_buffers win) in
  let res := (update_plot values win).1 in
  let win' := (update_plot values win).2 in
  (length values <= n -> res = Ok tt) /\
  (n < length values -> res = Raise IndexError) /\
  shows_buffers win' /\
  length (data_buffers win') = n /\
  (forall j buf, data_buffers win !! j = Some buf ->
     data_buffers win' !! j
     = Some (match plotted j values with
             | Some x => deque_append PLOT_POINTS buf x
             | None => buf
             end)).
Proof.
  intros Hshow. unfold update_plot.
  assert (Hlen : length (plot_curves win) = length (data_buffers win))
    by (rewrite Hshow; apply length_map).
  destruct (update_from_spec values 0 win Hlen) as (H1 & H2 & H3 & H4 & H5 & H6).
  cbv zeta in *. cbn [Nat.add] in H3, H4.
  assert (Hbuf : forall j buf, data_buffers win !! j = Some buf ->
            data_buffers (update_from 0 values win).2 !! j
            = Some (match plotted j values with
                    | Some x => deque_append PLOT_POINTS buf x
                    | None => buf
                    end)).
  { intros j buf Hj. rewrite H5, Hj. cbn [fmap option_fmap option_map].
    unfold buffer_after. cbn [Nat.leb]. by rewrite Nat.sub_0_r. }
  split; [exact H3|]. split.
  { intros Hn. apply H4; [done|]. intros ->. simpl in Hn. lia. }
  split; [|split; [done|exact Hbuf]].
  unfold shows_buffers. apply list_eq. intros j. rewrite list_lookup_fmap.
  destruct (data_buffers win !! j) as [buf|] eqn:Hj.
  - rewrite (Hbuf j buf Hj). cbn [fmap option_fmap option_map].
    rewrite (H6 j buf {| x_data := seq 0 (length buf); y_data := buf |} Hj).
    2:{ rewrite Hshow, list_lookup_fmap, Hj. done. }
    unfold curve_after. cbn [Nat.leb]. rewrite Nat.sub_0_r.
    by destruct (plotted j values).
  - rewrite H5, Hj. cbn [fmap option_fmap option_map].
    apply lookup_ge_None. apply lookup_ge_None in Hj. lia.
Qed.

(** X18.  One call of the slot: it returns when the vector is no longer than the
    list of buffers and raises [IndexError] otherwise; either way every
    buffer that has an entry in the vector gets it appended, NaN for a
    missing value, the oldest point leaving a full buffer, and every curve
    shows its buffer afterwards. *)
Theorem update_plot_appends (values : list (option float)) (win : MainWindow) :
  shows_buffers win ->
  let n := length (data_buffers win) in
  let res := (update_plot values win).1 in
  let win' := (update_plot values win).2 in
  (length values <= n -> res = Ok tt) /\
  (n < length values -> res = Raise IndexError) /\
  shows_buffers win' /\
  length (data_buffers win') = n /\
  (forall j buf, data_buffers win !! j = Some buf ->
     data_buffers win' !! j
     = Some (match plotted j values with
             | Some x => deque_append PLOT_POINTS buf x
             | None => buf
             end)).
Proof. apply update_plot_spec. Qed.

Lemma update_plot_appends_witness :
  let values := [Some 1750%float; None; Some 3%float] in
  let n := length (data_buffers MainWindow_init) in
  let res := (update_plot values MainWindow_init).1 in
  let win' := (update_plot values MainWindow_init).2 in
  (length values <= n -> res = Ok tt) /\
  (n < length values -> res = Raise IndexError) /\
  shows_buffers win' /\
  length (data_buffers win') = n /\
  (forall j buf, data_buffers MainWindow_init !! j = Some buf ->
     data_buffers win' !! j
     = Some (match plotted j values with
             | Some x => deque_append PLOT_POINTS buf x
             | None => buf
             end)).
Proof.
  apply (update_plot_appends [Some 1750%float; None; Some 3%float] MainWindow_init).
  reflexivity.
Defined.

Lemma omap_cons_match {A B} (f : A -> option B) (x : A) (l : list A) :
  omap f (x :: l) = match f x with Some y => y :: omap f l | None => omap f l end.
Proof. done. Qed.

Lemma deliver_spec rounds : forall win,
  shows_buffers win ->
  Forall (fun buf => length buf <= PLOT_POINTS) (data_buffers win) ->
  Forall (fun values => length values <= length (data_buffers win)) rounds ->
  exists win',
    deliver rounds win = (Ok tt, win') /\
    shows_buffers win' /\
    length (data_buffers win') = length (data_buffers win) /\
    (forall j buf, data_buffers win !! j = Some buf ->
       data_buffers win' !! j
       = Some (last_n PLOT_POINTS (buf ++ omap (plotted j) rounds))).
Proof.
  induction rounds as [|values rounds IH]; intros win Hshow Hmax Hlen.
  - exists win. cbn [deliver]. split; [done|]. split; [done|]. split; [done|].
    intros j buf Hj. cbn [omap list_omap]. rewrite app_nil_r, last_n_short; [done|].
    apply (proj1 (Forall_lookup _ _) Hmax j buf Hj).
  - apply Forall_cons in Hlen as [Hv Hlen].
    destruct (update_plot_spec values win Hshow) as (U1 & _ & U3 & U4 & U5).
    cbv zeta in *. specialize (U1 Hv).
    cbn [deliver]. destruct (update_plot values win) as [res win1].
    cbn [fst snd] in *. subst res.
    destruct (IH win1 U3) as (win' & D1 & D2 & D3 & D4).
    { apply Forall_lookup. intros j buf1 Hj1.
      destruct (data_buffers win !! j) as [buf|] eqn:Hj.
      2:{ apply lookup_ge_None in Hj. apply lookup_lt_Some in Hj1. lia. }
      rewrite (U5 j buf Hj) in Hj1. injection Hj1 as <-.
      pose proof (proj1 (Forall_lookup _ _) Hmax j buf Hj) as Hb. cbn beta in Hb.
      destruct (plotted j values); [|done].
      rewrite deque_append_length. lia. }
    { by rewrite U4. }
    exists win'. split; [done|]. split; [done|]. split; [by rewrite D3|].
    intros j buf Hj. rewrite (D4 j _ (U5 j buf Hj)). f_equal.
    pose proof (proj1 (Forall_lookup _ _) Hmax j buf Hj) as Hb. cbn beta in Hb.
    rewrite omap_cons_match.
    destruct (plotted j values) as [x|]; [|done].
    by apply deque_append_last_n.
Qed.

(** X19.  The rolling window: after any number of vectors that fit the window,
    each buffer holds the last [PLOT_POINTS] of what it held followed by
    what its channel contributed, in order; a channel without an entry in
    a vector contributes nothing for it. *)
Theorem deliver_rolling (rounds : list (list (option float))) (win : MainWindow) :
  shows_buffers win ->
  Forall (fun buf => length buf <= PLOT_POINTS) (data_buffers win) ->
  Forall (fun values => length values <= length (data_buffers win)) rounds ->
  exists win',
    deliver rounds win = (Ok tt, win') /\
    shows_buffers win' /\
    length (data_buffers win') = length (data_buffers win) /\
    (forall j buf, data_buffers win !! j = Some buf ->
       data_buffers win' !! j
       = Some (last_n PLOT_POINTS (buf ++ omap (plotted j) rounds))).
Proof. apply deliver_spec. Qed.

Lemma deliver_rolling_witness :
  let rounds := [[Some 1750%float; None]; [Some 1751%float]] in
  exists win',
    deliver rounds MainWindow_init = (Ok tt, win') /\
    shows_buffers win' /\
    length (data_buffers win') = length (data_buffers MainWindow_init) /\
    (forall j buf, data_buffers MainWindow_init !! j = Some buf ->
       data_buffers win' !! j
       = Some (last_n PLOT_POINTS (buf ++ omap (plotted j) rounds))).
Proof.
  apply (deliver_rolling [[Some 1750%float; None]; [Some 1751%float]] MainWindow_init);
    [reflexivity | repeat constructor | repeat constructor].
Defined.

Lemma configured_length w cfgs : forall pos,
  length (configured w pos cfgs) <= length cfgs.
Proof.
  induction cfgs as [|cfg cfgs IH]; intros pos; cbn [configured length]; [done|].
  specialize (IH (S pos)). destruct (setup_raises w pos cfg); cbn [length]; lia.
Qed.

(** X20.  The window of the program never meets a vector it cannot take:
    whatever the ports, the sensors and the disk do, the slot returns for
    every vector the thread emits, and in the end buffer [j] holds the
    last [PLOT_POINTS] entries that the vectors had at position [j].  The
    positions are those of the instruments that were set up, not of
    [SENSORS]. *)
Theorem display_follows_run (w : world) (start_time_str : string)
    (ports : gset nat) (d : file) :
  let vectors := emitted (trace (state_of (thread (main w start_time_str ports d)))) in
  exists win,
    deliver vectors MainWindow_init = (Ok tt, win) /\
    shows_buffers win /\
    forall j, j < length SENSORS ->
      data_buffers win !! j = Some (last_n PLOT_POINTS (omap (plotted j) vectors)).
Proof.
  intros vectors. subst vectors. unfold main. cbn [thread].
  set (reader := SensorReader SENSORS _ CSV_HEADER ports d).
  destruct (run_emitted w SENSORS ("sensor_data_" +:+ start_time_str +:+ ".csv")
              CSV_HEADER ports d) as (m & _ & Hem & _).
  cbv zeta in Hem. fold reader in Hem. rewrite Hem.
  destruct (deliver_spec
              (map (fun r => values_at w r (instruments (setup_instruments w reader)))
                 (seq 0 m)) MainWindow_init) as (win & D1 & D2 & _ & D4).
  - reflexivity.
  - repeat constructor.
  - apply Forall_fmap, Forall_forall. intros r _. unfold compose.
    rewrite values_at_length, <- (length_map item_config).
    subst reader. rewrite setup_instruments_configured.
    apply (configured_length w SENSORS 0).
  - exists win. split; [done|]. split; [done|].
    intros j Hj.
    destruct (data_buffers MainWindow_init !! j) as [buf|] eqn:Hb.
    2:{ apply lookup_ge_None in Hb. cbn in Hb, Hj. lia. }
    rewrite (D4 j buf Hb). f_equal.
    assert (buf = []); [|by subst].
    destruct j as [|[|j]]; cbn in Hb; try (by injection Hb); cbn in Hj; lia.
Qed.

End WindowFacts.
